(** * The Ollama connection supervisor

    A shallow embedding of [OllamaConnectionManager]
    (src/extension/ollama/vscode-node/ollamaConnectionManager.ts) and the
    properties of its reconnect / health-check state machine.

    The manager is an event-driven JavaScript object.  Every [async] method is
    cut at its [await]s into synchronous segments; a segment runs to
    completion, and the promises still to settle are kept in the host
    runtime's table of pending tasks.  The environment (user, timers,
    network) chooses which event happens next, so every interleaving the
    event loop allows is a path of [step]. *)

From Stdlib Require Import Ascii.
From stdpp Require Import base numbers list option strings gmap pretty.

Local Open Scope Z_scope.

(** ** Data model *)

Inductive ConnectionStatus := Connected | Disconnected | Reconnecting | Starting.

#[global] Instance ConnectionStatus_eq_dec : EqDecision ConnectionStatus.
Proof. solve_decision. Defined.

(** [interface ConnectionState]: optional fields are [option]s, [Date]s are
    milliseconds, numbers are integers. *)
Record ConnectionState := ConnectionState_mk {
  status : ConnectionStatus;
  lastError : option string;
  reconnectAttempts : Z;
  lastSuccessfulConnection : option Z;
  currentModel : option string;
  availableModels : list string;
  latency : option Z
}.

Definition MAX_RECONNECT_ATTEMPTS : Z := 10.
Definition INITIAL_RECONNECT_DELAY : Z := 1000.
Definition MAX_RECONNECT_DELAY : Z := 30000.

(** What leaves the manager: emitter firings, [window.show...] calls, network
    requests and the launch of the backend.  [logService] calls change
    nothing and are left out. *)
Inductive Effect :=
| StatusChanged (payload : ConnectionState)       (* _onStatusChanged.fire *)
| ModelChanged (modelName : string)               (* _onModelChanged.fire *)
| InformationMessage (message : string)
| ErrorMessage (message : string) (items : list string)
| TextDocumentShown
| Fetch (method url : string) (generate : option (string * Z)) (timeoutMs : Z)
| OllamaLaunch.

(** Who awaits a [connect()]: [initialize] goes on to
    [startHealthMonitoring]; every other caller drops the promise. *)
Inductive Caller := FromInitialize | FromElsewhere.

(** The suspended halves of the async methods. *)
Inductive Task :=
| ConnectCheck (c : Caller)                  (* await this.checkOllamaRunning() *)
| ConnectStart (c : Caller)                  (* await this.startOllama() *)
| ConnectTags (c : Caller) (startTime : Z)   (* await fetch(.../api/tags), response.json() *)
| HealthProbe (startTime : Z)                (* await fetch(.../api/version) in the interval *)
| SwitchProbe (modelName : string)           (* await fetch(.../api/generate) *)
| LaunchPoll.                                (* a probe of startOllama() that is answered after
                                                its promise has resolved *)

(** How a request ends.  A timeout, a refused connection and a body that is
    not JSON all reject with a message. *)
Inductive Response :=
| HttpOk (models : option (list string))   (* response.ok; data.models?.map(m => m.name) *)
| HttpStatus (code : Z)                    (* !response.ok *)
| Rejected (message : string).

(** What happens while [startOllama()] waits: the 500 ms interval starts a
    probe ([attempts++], then [await this.checkOllamaRunning()]), or a probe
    that is under way is answered.  A probe takes up to 2 s, so several can
    be under way at once; the order is the environment's.  The requests of
    these probes go to [ollamaEndpoint] as it is when they start; they are
    not listed among the effects. *)
Inductive Poll := PollStarted | PollAnswered (isRunning : bool).

Inductive Reply :=
| Responded (r : Response)
| LaunchOutcome (installed : bool) (trace : list Poll).

(** The manager's fields together with the part of the host runtime they
    point into. *)
Record World := World_mk {
  state : ConnectionState;
  reconnectTimer : option nat;
  healthCheckInterval : option nat;
  ollamaEndpoint : string;
  clock : Z;                        (* Date.now() *)
  timeouts : list (nat * Z);        (* pending setTimeout(() => this.connect(), delay) *)
  intervals : list nat;             (* live setInterval handles *)
  nextHandle : nat;
  pending : list Task;
  prompts : nat;                    (* open Retry / Open Settings prompts *)
  effects : list Effect             (* oldest first *)
}.

(** ** A state monad for the synchronous segments *)

Definition Op (A : Type) : Type := World → A * World.

#[global] Instance Op_ret : MRet Op := λ A (a : A) w, (a, w).
#[global] Instance Op_bind : MBind Op :=
  λ A B (f : A → Op B) (m : Op A) w, let '(a, w1) := m w in f a w1.

Definition exec {A} (m : Op A) (w : World) : World := (m w).2.
Definition result {A} (m : Op A) (w : World) : A := (m w).1.

Definition get {A} (f : World → A) : Op A := λ w, (f w, w).
Definition modify (f : World → World) : Op unit := λ w, ((), f w).
Definition when (b : bool) (m : Op unit) : Op unit := if b then m else mret ().

Definition with_state (f : ConnectionState → ConnectionState) (w : World) : World :=
  World_mk (f (state w)) (reconnectTimer w) (healthCheckInterval w) (ollamaEndpoint w)
    (clock w) (timeouts w) (intervals w) (nextHandle w) (pending w) (prompts w) (effects w).
Definition with_reconnectTimer (t : option nat) (w : World) : World :=
  World_mk (state w) t (healthCheckInterval w) (ollamaEndpoint w)
    (clock w) (timeouts w) (intervals w) (nextHandle w) (pending w) (prompts w) (effects w).
Definition with_healthCheckInterval (t : option nat) (w : World) : World :=
  World_mk (state w) (reconnectTimer w) t (ollamaEndpoint w)
    (clock w) (timeouts w) (intervals w) (nextHandle w) (pending w) (prompts w) (effects w).
Definition with_ollamaEndpoint (e : string) (w : World) : World :=
  World_mk (state w) (reconnectTimer w) (healthCheckInterval w) e
    (clock w) (timeouts w) (intervals w) (nextHandle w) (pending w) (prompts w) (effects w).
Definition with_clock (c : Z) (w : World) : World :=
  World_mk (state w) (reconnectTimer w) (healthCheckInterval w) (ollamaEndpoint w)
    c (timeouts w) (intervals w) (nextHandle w) (pending w) (prompts w) (effects w).
Definition with_timeouts (f : list (nat * Z) → list (nat * Z)) (w : World) : World :=
  World_mk (state w) (reconnectTimer w) (healthCheckInterval w) (ollamaEndpoint w)
    (clock w) (f (timeouts w)) (intervals w) (nextHandle w) (pending w) (prompts w) (effects w).
Definition with_intervals (f : list nat → list nat) (w : World) : World :=
  World_mk (state w) (reconnectTimer w) (healthCheckInterval w) (ollamaEndpoint w)
    (clock w) (timeouts w) (f (intervals w)) (nextHandle w) (pending w) (prompts w) (effects w).
Definition with_nextHandle (n : nat) (w : World) : World :=
  World_mk (state w) (reconnectTimer w) (healthCheckInterval w) (ollamaEndpoint w)
    (clock w) (timeouts w) (intervals w) n (pending w) (prompts w) (effects w).
Definition with_pending (f : list Task → list Task) (w : World) : World :=
  World_mk (state w) (reconnectTimer w) (healthCheckInterval w) (ollamaEndpoint w)
    (clock w) (timeouts w) (intervals w) (nextHandle w) (f (pending w)) (prompts w) (effects w).
Definition with_prompts (f : nat → nat) (w : World) : World :=
  World_mk (state w) (reconnectTimer w) (healthCheckInterval w) (ollamaEndpoint w)
    (clock w) (timeouts w) (intervals w) (nextHandle w) (pending w) (f (prompts w)) (effects w).
Definition with_effects (f : list Effect → list Effect) (w : World) : World :=
  World_mk (state w) (reconnectTimer w) (healthCheckInterval w) (ollamaEndpoint w)
    (clock w) (timeouts w) (intervals w) (nextHandle w) (pending w) (prompts w) (f (effects w)).

(** Field assignments on the record [this.state] points to. *)
Definition set_status (s : ConnectionStatus) (st : ConnectionState) : ConnectionState :=
  ConnectionState_mk s (lastError st) (reconnectAttempts st) (lastSuccessfulConnection st)
    (currentModel st) (availableModels st) (latency st).
Definition set_lastError (e : option string) (st : ConnectionState) : ConnectionState :=
  ConnectionState_mk (status st) e (reconnectAttempts st) (lastSuccessfulConnection st)
    (currentModel st) (availableModels st) (latency st).
Definition set_reconnectAttempts (n : Z) (st : ConnectionState) : ConnectionState :=
  ConnectionState_mk (status st) (lastError st) n (lastSuccessfulConnection st)
    (currentModel st) (availableModels st) (latency st).
Definition set_lastSuccessfulConnection (d : option Z) (st : ConnectionState) : ConnectionState :=
  ConnectionState_mk (status st) (lastError st) (reconnectAttempts st) d
    (currentModel st) (availableModels st) (latency st).
Definition set_currentModel (m : option string) (st : ConnectionState) : ConnectionState :=
  ConnectionState_mk (status st) (lastError st) (reconnectAttempts st) (lastSuccessfulConnection st)
    m (availableModels st) (latency st).
Definition set_availableModels (l : list string) (st : ConnectionState) : ConnectionState :=
  ConnectionState_mk (status st) (lastError st) (reconnectAttempts st) (lastSuccessfulConnection st)
    (currentModel st) l (latency st).
Definition set_latency (l : option Z) (st : ConnectionState) : ConnectionState :=
  ConnectionState_mk (status st) (lastError st) (reconnectAttempts st) (lastSuccessfulConnection st)
    (currentModel st) (availableModels st) l.

(** ** Host primitives *)

Definition emit (e : Effect) : Op unit := modify (with_effects (λ l, l ++ [e])).
Definition suspend (t : Task) : Op unit := modify (with_pending (λ l, l ++ [t])).

(** [setTimeout(() => this.connect(), delay)] *)
Definition setTimeout (delay : Z) : Op nat := λ w,
  let h := nextHandle w in
  (h, with_nextHandle (S h) (with_timeouts (λ l, l ++ [(h, delay)]) w)).

(** [clearTimeout(h)]: nothing happens when [h] has fired or was cleared. *)
Definition clearTimeout (h : nat) : Op unit :=
  modify (with_timeouts (filter (λ t, t.1 ≠ h))).

Definition setInterval : Op nat := λ w,
  let h := nextHandle w in
  (h, with_nextHandle (S h) (with_intervals (λ l, l ++ [h]) w)).

Definition clearInterval (h : nat) : Op unit :=
  modify (with_intervals (filter (λ i, i ≠ h))).

(** [fetch(`${this.ollamaEndpoint}${path}`, { signal: AbortSignal.timeout(ms) })] *)
Definition fetch (method path : string) (generate : option (string * Z)) (timeoutMs : Z) : Op unit :=
  base ← get ollamaEndpoint;
  emit (Fetch method (base +:+ path) generate timeoutMs).

(** ** The manager's methods *)

(** [updateStatus]: a new record with two fields replaced, then fired. *)
Definition updateStatus (s : ConnectionStatus) (error : option string) : Op unit :=
  modify (with_state (λ st, set_lastError error (set_status s st)));;
  st ← get state;
  emit (StatusChanged st).

(** [Math.min(INITIAL_RECONNECT_DELAY * Math.pow(2, reconnectAttempts),
    MAX_RECONNECT_DELAY)].  The counter is a natural number, for which the
    double-precision product is exact below the cap and above it otherwise,
    so the minimum is the integer one. *)
Definition backoffDelay (attempts : Z) : Z :=
  Z.min (INITIAL_RECONNECT_DELAY * 2 ^ attempts) MAX_RECONNECT_DELAY.

Definition retryPrompt : Effect :=
  ErrorMessage
    "Unable to connect to Ollama after multiple attempts. Please ensure Ollama is running."
    ["Retry"; "Open Settings"]%string.

Definition clearReconnectTimer : Op unit :=
  t ← get reconnectTimer;
  match t with Some h => clearTimeout h | None => mret () end.

Definition scheduleReconnect : Op unit :=
  st ← get state;
  if bool_decide (MAX_RECONNECT_ATTEMPTS ≤ reconnectAttempts st) then
    emit retryPrompt;;
    modify (with_prompts S)
  else
    let delay := backoffDelay (reconnectAttempts st) in
    modify (with_state (λ st, set_reconnectAttempts (reconnectAttempts st + 1) st));;
    updateStatus Reconnecting
      (Some ("Reconnecting in " +:+ pretty (delay `div` 1000) +:+ "s..."));;
    clearReconnectTimer;;
    h ← setTimeout delay;
    modify (with_reconnectTimer (Some h)).

Definition startHealthMonitoring : Op unit :=
  h ← setInterval;
  modify (with_healthCheckInterval (Some h)).

(** [connect()] up to its first [await]. *)
Definition connect (c : Caller) : Op unit :=
  updateStatus Starting None;;
  fetch "GET" "/api/version" None 2000;;
  suspend (ConnectCheck c).

(** The promise of [connect()] resolves with [b]; [initialize] resumes. *)
Definition settle (c : Caller) (b : bool) : Op (option bool) :=
  match c with FromInitialize => startHealthMonitoring | FromElsewhere => mret () end;;
  mret (Some b).

Definition testConnection (c : Caller) : Op (option bool) :=
  startTime ← get clock;
  fetch "GET" "/api/tags" None 5000;;
  suspend (ConnectTags c startTime);;
  mret None.

(** [checkOllamaRunning()]: [response.ok], and [false] on any rejection. *)
Definition checkOllamaRunning (r : Response) : bool :=
  match r with HttpOk _ => true | _ => false end.

(** The promise resolves with the last thing of the trace. *)
Definition resolved {A} (rest : list Poll) (a : A) : option A :=
  match rest with [] => Some a | _ => None end.

(** [startOllama()].  [installed] tells whether [ollama --version] ran;
    [trace] is what the interval callback did from then until the promise
    resolved.  [attempts] is the counter of the callback, which a probe
    increments when it starts and tests when it is answered; [inFlight]
    counts the probes under way.  The result is what the promise resolves
    with and how many probes are still under way at that moment; [None]:
    the promise has not resolved at the end of [trace], or [trace] is not
    something the code can do (an answer with no probe under way, anything
    after the promise has resolved and the interval is cleared). *)
Fixpoint waitForOllama (attempts : Z) (inFlight : nat) (trace : list Poll)
    : option (bool * nat) :=
  match trace with
  | [] => None
  | PollStarted :: rest => waitForOllama (attempts + 1) (S inFlight) rest
  | PollAnswered isRunning :: rest =>
      match inFlight with
      | O => None
      | S inFlight =>
          if isRunning then resolved rest (true, inFlight)
          else if bool_decide (10 ≤ attempts) then resolved rest (false, inFlight)
          else waitForOllama attempts inFlight rest
      end
  end.

Definition startOllama (installed : bool) (trace : list Poll) : option (bool * nat) :=
  if installed then waitForOllama 0 0 trace else resolved trace (false, 0%nat).

Definition connect_checked (c : Caller) (isRunning : bool) : Op (option bool) :=
  if isRunning then testConnection c
  else emit OllamaLaunch;; suspend (ConnectStart c);; mret None.

(** A probe of [startOllama()] is answered after the promise has resolved:
    the callback still announces a backend that runs ([clearInterval] and
    [resolve] then do nothing more). *)
Definition launchPolled (isRunning : bool) : Op unit :=
  when isRunning (emit (InformationMessage "Started Ollama service")).

Definition connect_started (c : Caller) (started : bool) : Op (option bool) :=
  if started then
    emit (InformationMessage "Started Ollama service");;
    testConnection c
  else
    updateStatus Disconnected (Some "Ollama is not installed or cannot be started");;
    scheduleReconnect;;
    settle c false.

(** [error.message || 'Unknown error'] *)
Definition errorMessage (message : string) : string :=
  if bool_decide (message = "") then "Unknown error" else message.

Definition connect_failed (c : Caller) (message : string) : Op (option bool) :=
  updateStatus Disconnected (Some (errorMessage message));;
  scheduleReconnect;;
  settle c false.

Definition connect_tested (c : Caller) (startTime : Z) (r : Response) : Op (option bool) :=
  match r with
  | HttpOk models =>
      now ← get clock;
      let latency := now - startTime in
      modify (with_state (λ st,
        set_lastError None
          (set_latency (Some latency)
            (set_availableModels (default [] models)
              (set_lastSuccessfulConnection (Some now)
                (set_reconnectAttempts 0
                  (set_status Connected st)))))));;
      st ← get state;
      emit (StatusChanged st);;
      st ← get state;
      when (bool_decide (0 < reconnectAttempts st))
        (emit (InformationMessage "Ollama reconnected successfully!"));;
      settle c true
  | HttpStatus code => connect_failed c ("HTTP " +:+ pretty code)
  | Rejected message => connect_failed c message
  end.

(** The interval callback of [startHealthMonitoring], up to its [await]. *)
Definition healthCheck : Op unit :=
  st ← get state;
  if bool_decide (status st = Connected) then
    startTime ← get clock;
    fetch "GET" "/api/version" None 3000;;
    suspend (HealthProbe startTime)
  else mret ().

Definition healthCheck_probed (startTime : Z) (r : Response) : Op unit :=
  match r with
  | HttpOk _ =>
      now ← get clock;
      modify (with_state (set_latency (Some (now - startTime))))
  | _ =>
      updateStatus Disconnected (Some "Connection lost");;
      scheduleReconnect
  end.

Definition switchModel (modelName : string) : Op (option bool) :=
  st ← get state;
  if bool_decide (status st ≠ Connected) then
    emit (ErrorMessage "Cannot switch model: Not connected to Ollama" []);;
    mret (Some false)
  else if bool_decide (modelName ∉ availableModels st) then
    emit (ErrorMessage ("Model " +:+ modelName +:+ " is not available") []);;
    mret (Some false)
  else
    fetch "POST" "/api/generate" (Some (modelName, 1)) 10000;;
    suspend (SwitchProbe modelName);;
    mret None.

Definition switchModel_failed (message : string) : Op (option bool) :=
  emit (ErrorMessage ("Failed to switch model: " +:+ message) []);;
  mret (Some false).

Definition switchModel_probed (modelName : string) (r : Response) : Op (option bool) :=
  match r with
  | HttpOk _ =>
      modify (with_state (set_currentModel (Some modelName)));;
      emit (ModelChanged modelName);;
      emit (InformationMessage ("Switched to model: " +:+ modelName));;
      mret (Some true)
  | HttpStatus code => switchModel_failed ("Failed to switch model: HTTP " +:+ pretty code)
  | Rejected message => switchModel_failed message
  end.

(** [getState()] as the caller reads it: the values of the fields. *)
Definition getState : Op ConnectionState := get state.

Definition reconnect : Op unit :=
  modify (with_state (set_reconnectAttempts 0));;
  clearReconnectTimer;;
  connect FromElsewhere.

Definition cleanup : Op unit :=
  clearReconnectTimer;;
  i ← get healthCheckInterval;
  match i with Some h => clearInterval h | None => mret () end.

Definition updateEndpoint (endpoint : string) : Op unit :=
  modify (with_ollamaEndpoint endpoint);;
  reconnect.

(** The [then] callback of the retry prompt. *)
Definition promptAnswered (action : option string) : Op unit :=
  modify (with_prompts Nat.pred);;
  if bool_decide (action = Some "Retry") then
    modify (with_state (set_reconnectAttempts 0));;
    connect FromElsewhere
  else if bool_decide (action = Some "Open Settings") then
    emit TextDocumentShown
  else mret ().

Definition initialize : Op unit := connect FromInitialize.

(** The field initialisers and the constructor, which runs [initialize()]
    up to its first [await]. *)
Definition initialState : ConnectionState :=
  ConnectionState_mk Disconnected None 0 None None [] None.

Definition construct (endpoint : string) (now : Z) : World :=
  exec initialize (World_mk initialState None None endpoint now [] [] 0 [] 0 []).

(** ** The event loop *)

Inductive Event :=
| Elapsed (dt : Z)
| Called_connect
| Called_reconnect
| Called_updateEndpoint (endpoint : string)
| Called_switchModel (modelName : string)
| Disposed
| PromptAnswered (action : option string)
| TimeoutFired (h : nat)
| IntervalFired (h : nat)
| Settled (i : nat) (r : Reply).

Definition resume (t : Task) (r : Reply) (w : World) : option World :=
  match t, r with
  | ConnectCheck c, Responded r => Some (exec (connect_checked c (checkOllamaRunning r)) w)
  | ConnectStart c, LaunchOutcome installed trace =>
      '(started, late) ← startOllama installed trace;
      Some (exec (connect_started c started)
              (with_pending (λ l, l ++ replicate late LaunchPoll) w))
  | ConnectTags c startTime, Responded r => Some (exec (connect_tested c startTime r) w)
  | HealthProbe startTime, Responded r => Some (exec (healthCheck_probed startTime r) w)
  | SwitchProbe modelName, Responded r => Some (exec (switchModel_probed modelName r) w)
  | LaunchPoll, Responded r => Some (exec (launchPolled (checkOllamaRunning r)) w)
  | _, _ => None
  end.

Definition step (e : Event) (w : World) : option World :=
  match e with
  | Elapsed dt => if bool_decide (0 ≤ dt) then Some (with_clock (clock w + dt) w) else None
  | Called_connect => Some (exec (connect FromElsewhere) w)
  | Called_reconnect => Some (exec reconnect w)
  | Called_updateEndpoint endpoint => Some (exec (updateEndpoint endpoint) w)
  | Called_switchModel modelName => Some (exec (switchModel modelName) w)
  | Disposed => Some (exec cleanup w)
  | PromptAnswered action =>
      if bool_decide (0 < prompts w)%nat then Some (exec (promptAnswered action) w) else None
  | TimeoutFired h =>
      if bool_decide (h ∈ (timeouts w).*1)
      then Some (exec (connect FromElsewhere) (with_timeouts (filter (λ t, t.1 ≠ h)) w))
      else None
  | IntervalFired h =>
      if bool_decide (h ∈ intervals w) then Some (exec healthCheck w) else None
  | Settled i r =>
      t ← pending w !! i;
      resume t r (with_pending (delete i) w)
  end.

Fixpoint run (es : list Event) (w : World) : option World :=
  match es with
  | [] => Some w
  | e :: es => w' ← step e w; run es w'
  end.

(** The worlds the manager can be in. *)
Inductive reachable : World → Prop :=
| reachable_construct endpoint now : reachable (construct endpoint now)
| reachable_step w e w' : reachable w → step e w = Some w' → reachable w'.

(** ** Proof tools *)

Ltac unfold_ops :=
  unfold exec, result, initialize, updateEndpoint, reconnect, cleanup, promptAnswered,
    getState, switchModel, switchModel_probed, switchModel_failed, healthCheck,
    healthCheck_probed, connect_tested, connect_failed, connect_started, launchPolled,
    connect_checked, testConnection, settle, connect, startHealthMonitoring,
    scheduleReconnect, clearReconnectTimer, updateStatus, fetch, setInterval,
    clearInterval, setTimeout, clearTimeout, suspend, emit, when, modify, get,
    mbind, mret, Op_bind, Op_ret in *.

(** Run a segment symbolically: unfold it and split on every test it makes. *)
Ltac crunch :=
  unfold_ops; simpl in *;
  repeat (first [case_bool_decide | case_match]; simpl in *; simplify_eq/=).

Ltac consts :=
  unfold MAX_RECONNECT_ATTEMPTS, INITIAL_RECONNECT_DELAY, MAX_RECONNECT_DELAY in *.

Ltac destruct_world w :=
  let st := fresh "st" in
  destruct w as [st ? ? ? ? ? ? ? ? ? ?]; simpl in *.

(** Sequencing, for proofs that go segment by segment. *)
Lemma exec_bind {A B} (m : Op A) (k : A → Op B) (w : World) :
  exec (m ≫= k) w = exec (k (result m w)) (exec m w).
Proof. unfold exec, result, mbind, Op_bind. by destruct (m w). Qed.

Lemma result_bind {A B} (m : Op A) (k : A → Op B) (w : World) :
  result (m ≫= k) w = result (k (result m w)) (exec m w).
Proof. unfold exec, result, mbind, Op_bind. by destruct (m w). Qed.

Lemma filter_handle_single (h : nat) (d : Z) :
  filter (λ t : nat * Z, t.1 ≠ h) [(h, d)] = [].
Proof. rewrite filter_cons. simpl. by case_decide. Qed.

(** ** The invariant of the state machine *)

Record invariant (w : World) : Prop := {
  inv_attempts : 0 ≤ reconnectAttempts (state w) ≤ MAX_RECONNECT_ATTEMPTS;
  inv_connected : status (state w) = Connected →
                  lastError (state w) = None ∧ reconnectAttempts (state w) = 0;
  inv_timer : timeouts w = [] ∨
              ∃ h d, timeouts w = [(h, d)] ∧ reconnectTimer w = Some h
}.

Ltac inv_split := split; simpl; consts.

Ltac timer_cases Ht :=
  destruct Ht as [-> | (? & ? & -> & ?)]; simplify_eq/=;
  rewrite ?filter_handle_single; simpl; eauto.

Lemma updateStatus_invariant s e w :
  invariant w → s ≠ Connected → invariant (exec (updateStatus s e) w).
Proof.
  intros [Ha Hc Ht] Hs. destruct_world w. crunch. inv_split; done.
Qed.

Lemma scheduleReconnect_invariant w :
  invariant w → status (state w) ≠ Connected → invariant (exec scheduleReconnect w).
Proof.
  intros [Ha Hc Ht] Hs. destruct_world w. crunch;
    consts; (inv_split; [try lia | done |]); auto.
  all: right; timer_cases Ht.
Qed.

Lemma connect_invariant c w : invariant w → invariant (exec (connect c) w).
Proof. intros [Ha Hc Ht]. destruct_world w. crunch. inv_split; done. Qed.

Lemma clearReconnectTimer_timeouts w :
  invariant w → timeouts (exec clearReconnectTimer w) = [].
Proof.
  intros [_ _ Ht]. destruct_world w. crunch; timer_cases Ht.
Qed.

Lemma reconnect_invariant w : invariant w → invariant (exec reconnect w).
Proof.
  intros [Ha Hc Ht]. destruct_world w. consts.
  crunch; (inv_split; [lia | done |]); timer_cases Ht.
Qed.

Lemma resume_invariant t r w w' :
  invariant w → resume t r w = Some w' → invariant w'.
Proof.
  intros [Ha Hc Ht] Hr. destruct_world w. consts.
  destruct t, r as [[]|]; simpl in Hr; simplify_option_eq;
    crunch; consts;
    (inv_split; [try lia | try (done || (intros; split; congruence)) |]); auto;
    try (right; timer_cases Ht).
Qed.

Lemma step_invariant e w w' : invariant w → step e w = Some w' → invariant w'.
Proof.
  intros Hinv Hs. destruct e; simpl in Hs; simplify_option_eq.
  - destruct Hinv. split; done.
  - by apply connect_invariant.
  - by apply reconnect_invariant.
  - destruct Hinv as [Ha Hc Ht]. destruct_world w. consts.
    crunch; (inv_split; [lia | done |]); timer_cases Ht.
  - destruct Hinv as [Ha Hc Ht]. destruct_world w. crunch; inv_split; done.
  - destruct Hinv as [Ha Hc Ht]. destruct_world w.
    crunch; (inv_split; [done | done |]); timer_cases Ht.
  - destruct Hinv as [Ha Hc Ht]. destruct_world w. consts.
    crunch; (inv_split; [lia | done |]); done.
  - destruct Hinv as [Ha Hc Ht]. destruct_world w.
    crunch. inv_split; [done | done |]. left.
    destruct Ht as [-> | (h' & d & -> & _)]; [done|].
    match goal with H : _ ∈ _ |- _ => apply list_elem_of_singleton in H as -> end.
    apply filter_handle_single.
  - destruct Hinv as [Ha Hc Ht]. destruct_world w. crunch; inv_split; done.
  - eapply resume_invariant; [|eassumption].
    destruct Hinv. split; done.
Qed.

Lemma construct_invariant endpoint now : invariant (construct endpoint now).
Proof. split; simpl; [done | done | by left]. Qed.

Lemma reachable_invariant w : reachable w → invariant w.
Proof.
  induction 1 as [|w e w' _ IH Hs]; [apply construct_invariant|].
  by eapply step_invariant.
Qed.

(** ** Reference executions *)

Definition localhost : string := "http://localhost:11434".

Lemma run_reachable es w w' : reachable w → run es w = Some w' → reachable w'.
Proof.
  revert w. induction es as [|e es IH]; simpl; intros w Hw Hr.
  - by simplify_eq.
  - destruct (step e w) as [w1|] eqn:Hs; simpl in Hr; [|done].
    eapply IH; [|eassumption]. by eapply reachable_step.
Qed.

(** What [es] leads to from a fresh manager on [localhost] (the fresh
    manager itself when [es] cannot happen). *)
Definition after (es : list Event) : World :=
  default (construct localhost 0) (run es (construct localhost 0)).

Lemma after_reachable es : reachable (after es).
Proof.
  unfold after. destruct (run es (construct localhost 0)) as [w|] eqn:Hr; simpl.
  - eapply run_reachable; [apply reachable_construct | exact Hr].
  - apply reachable_construct.
Qed.

(** The backend answers both probes of the first [connect()] and lists two
    models. *)
Definition connectedWorld : World :=
  after [Settled 0 (Responded (HttpOk None));
         Settled 0 (Responded (HttpOk (Some ["a"; "b"]%string)))].

Lemma connectedWorld_reachable : reachable connectedWorld.
Proof. apply after_reachable. Qed.

(** ** Backoff *)

Lemma backoffDelay_closed_form (attempts : Z) :
  0 ≤ attempts →
  backoffDelay attempts = if bool_decide (attempts < 5) then 1000 * 2 ^ attempts else 30000.
Proof.
  intros Ha. unfold backoffDelay. consts. case_bool_decide.
  - assert (2 ^ attempts ≤ 2 ^ 4) by (apply Z.pow_le_mono_r; lia). lia.
  - assert (2 ^ 5 ≤ 2 ^ attempts) by (apply Z.pow_le_mono_r; lia). lia.
Qed.

(** The delay is a whole number of seconds, so the [delay / 1000] of the
    status message is an integer. *)
Lemma backoffDelay_seconds (attempts : Z) :
  0 ≤ attempts → backoffDelay attempts = 1000 * (backoffDelay attempts `div` 1000).
Proof.
  intros Ha. rewrite backoffDelay_closed_form by done. case_bool_decide; [|done].
  rewrite (Z.mul_comm 1000 (2 ^ attempts)), Z.div_mul by done. lia.
Qed.

Lemma scheduleReconnect_arms (w : World) :
  reconnectAttempts (state w) < MAX_RECONNECT_ATTEMPTS →
  last (timeouts (exec scheduleReconnect w))
    = Some (nextHandle w, backoffDelay (reconnectAttempts (state w))) ∧
  reconnectTimer (exec scheduleReconnect w) = Some (nextHandle w) ∧
  reconnectAttempts (state (exec scheduleReconnect w)) = reconnectAttempts (state w) + 1 ∧
  status (state (exec scheduleReconnect w)) = Reconnecting.
Proof.
  intros Hlt. destruct_world w. crunch; try lia; rewrite last_snoc; done.
Qed.

(** C1. The Nth reconnect attempt, scheduled when the counter holds N-1, is
    delayed by min(1000 * 2^(N-1), 30000) ms: that is what the delay
    expression evaluates to, and it is the delay of the timer that
    [scheduleReconnect] arms while the counter is below the ceiling.
    delay(1) = 1000, delay(5) = 16000, delay(6) = 30000, delay(100) = 30000. *)
Theorem backoff_delay_nth (N : Z) (w : World) :
  1 ≤ N → reconnectAttempts (state w) = N - 1 →
  backoffDelay (reconnectAttempts (state w)) = Z.min (1000 * 2 ^ (N - 1)) 30000 ∧
  (N ≤ MAX_RECONNECT_ATTEMPTS →
     last (timeouts (exec scheduleReconnect w))
       = Some (nextHandle w, Z.min (1000 * 2 ^ (N - 1)) 30000) ∧
     reconnectAttempts (state (exec scheduleReconnect w)) = N) ∧
  backoffDelay (1 - 1) = 1000 ∧ backoffDelay (5 - 1) = 16000 ∧
  backoffDelay (6 - 1) = 30000 ∧ backoffDelay (100 - 1) = 30000.
Proof.
  intros HN Hw. split; [by rewrite Hw|]. split; [|by vm_compute].
  intros Hmax. destruct (scheduleReconnect_arms w) as (Hl & _ & Ha & _).
  { rewrite Hw. lia. }
  rewrite Hl, Ha, Hw. split; [done | lia].
Qed.

Lemma backoff_delay_nth_witness :
  backoffDelay (reconnectAttempts (state (with_state (set_reconnectAttempts 5) connectedWorld)))
    = Z.min (1000 * 2 ^ (6 - 1)) 30000 ∧
  last (timeouts (exec scheduleReconnect (with_state (set_reconnectAttempts 5) connectedWorld)))
    = Some (1%nat, 30000).
Proof.
  destruct (backoff_delay_nth 6 (with_state (set_reconnectAttempts 5) connectedWorld))
    as (H1 & H2 & _); [lia | reflexivity |].
  split; [exact H1|]. destruct H2 as [H2 _]; [by vm_compute | exact H2].
Defined.

(** ** Connected means healthy *)

(** C2. In every reachable state, status = Connected implies that lastError
    is absent and reconnectAttempts = 0; and a successful connect() leaves
    status = Connected, reconnectAttempts = 0 and no lastError whatever the
    record held before. *)
Theorem connected_implies_clean (w : World) :
  reachable w →
  (status (state w) = Connected →
     lastError (state w) = None ∧ reconnectAttempts (state w) = 0) ∧
  (∀ c startTime models,
     let w' := exec (connect_tested c startTime (HttpOk models)) w in
     result (connect_tested c startTime (HttpOk models)) w = Some true ∧
     status (state w') = Connected ∧
     reconnectAttempts (state w') = 0 ∧ lastError (state w') = None).
Proof.
  intros Hr. split.
  - apply reachable_invariant in Hr. apply Hr.
  - intros c startTime models. destruct_world w. by crunch.
Qed.

(** The same for a record that no execution produces. *)
Lemma connect_tested_resets (w : World) c startTime models :
  let w' := exec (connect_tested c startTime (HttpOk models)) w in
  status (state w') = Connected ∧
  reconnectAttempts (state w') = 0 ∧ lastError (state w') = None.
Proof. destruct_world w. by crunch. Qed.

Lemma connected_implies_clean_witness :
  status (state connectedWorld) = Connected ∧
  lastError (state connectedWorld) = None ∧ reconnectAttempts (state connectedWorld) = 0.
Proof.
  split; [reflexivity|].
  apply (connected_implies_clean connectedWorld connectedWorld_reachable). reflexivity.
Defined.

(** ** Switching the model *)

Definition switchModelFailed (e : Effect) : Prop :=
  ∃ message, e = ErrorMessage message [].

Definition isFetch (e : Effect) : bool :=
  match e with Fetch _ _ _ _ => true | _ => false end.

(** The only event that writes [currentModel]: a validation request that
    comes back ok. *)
Definition completesSwitch (e : Event) (w : World) : option string :=
  match e with
  | Settled i (Responded (HttpOk _)) =>
      match pending w !! i with Some (SwitchProbe modelName) => Some modelName | _ => None end
  | _ => None
  end.

Lemma step_currentModel e w w' :
  step e w = Some w' →
  currentModel (state w') = currentModel (state w) ∨
  ∃ modelName, completesSwitch e w = Some modelName ∧
               currentModel (state w') = Some modelName.
Proof.
  intros Hs. destruct_world w.
  destruct e as [| | | | | | | | |i r]; simpl in Hs; simplify_option_eq;
    try (left; crunch; done).
  match goal with H : resume ?t _ _ = _ |- _ => destruct t end;
    destruct r as [[]|]; simpl in *; simplify_option_eq;
    try (left; crunch; done).
  right. by eexists.
Qed.

(** C3. switchModel(name) called while status is not Connected, or with a
    name that is not in availableModels, issues no request, shows an error,
    resolves to false and changes nothing of the state; a validation request
    that fails shows an error, resolves to false and changes nothing of the
    state; a validation request that succeeds sets currentModel = name and
    fires the model-changed notification; and no other event of the manager
    changes currentModel. *)
Theorem switchModel_validates (w : World) (modelName : string) :
  (status (state w) ≠ Connected ∨ modelName ∉ availableModels (state w) →
     let w' := exec (switchModel modelName) w in
     result (switchModel modelName) w = Some false ∧
     state w' = state w ∧ pending w' = pending w ∧
     ∃ e, switchModelFailed e ∧ isFetch e = false ∧ effects w' = effects w ++ [e]) ∧
  (∀ r, checkOllamaRunning r = false →
     let w' := exec (switchModel_probed modelName r) w in
     result (switchModel_probed modelName r) w = Some false ∧
     state w' = state w ∧
     ∃ e, switchModelFailed e ∧ effects w' = effects w ++ [e]) ∧
  (∀ models,
     let w' := exec (switchModel_probed modelName (HttpOk models)) w in
     result (switchModel_probed modelName (HttpOk models)) w = Some true ∧
     state w' = set_currentModel (Some modelName) (state w) ∧
     effects w' = effects w ++
       [ModelChanged modelName;
        InformationMessage ("Switched to model: " +:+ modelName)]) ∧
  (∀ e w', step e w = Some w' →
     currentModel (state w') ≠ currentModel (state w) →
     ∃ name, completesSwitch e w = Some name ∧ currentModel (state w') = Some name).
Proof.
  split; [|split; [|split]].
  - intros Hguard. destruct_world w. destruct st.
    crunch; try tauto; (split; [done|]); (split; [done|]); (split; [done|]);
      eexists; (split; [by eexists|]); done.
  - intros r Hr. destruct_world w. destruct st. destruct r; [done| |];
      crunch; (split; [done|]); (split; [done|]); eexists; (split; [by eexists|]);
      by rewrite <-?app_assoc.
  - intros models. destruct_world w. crunch. by rewrite <-app_assoc.
  - intros e w' Hs Hne. by destruct (step_currentModel e w w' Hs).
Qed.

Lemma switchModel_validates_witness :
  result (switchModel "c") connectedWorld = Some false ∧
  state (exec (switchModel "c") connectedWorld) = state connectedWorld ∧
  effects (exec (switchModel "c") connectedWorld)
    = effects connectedWorld ++ [ErrorMessage "Model c is not available" []].
Proof.
  destruct (switchModel_validates connectedWorld "c") as [H _].
  destruct H as (Hres & Hst & _ & _).
  - right. vm_compute. intros H. repeat (apply elem_of_cons in H as [H|H]; [discriminate H|]).
    by apply elem_of_nil in H.
  - split; [exact Hres|]. split; [exact Hst|]. reflexivity.
Defined.

(** ** One reconnect timer *)

Lemma scheduleReconnect_replaces (w : World) :
  invariant w →
  reconnectAttempts (state w) < MAX_RECONNECT_ATTEMPTS →
  timeouts (exec scheduleReconnect w)
    = [(nextHandle w, backoffDelay (reconnectAttempts (state w)))].
Proof.
  intros [_ _ Ht] Hlt. destruct_world w. crunch; try lia; timer_cases Ht.
Qed.

Lemma invariant_timeouts_length w : invariant w → (length (timeouts w) ≤ 1)%nat.
Proof. intros [_ _ [-> | (h & d & -> & _)]]; simpl; lia. Qed.

(** C5. At most one reconnect timer is pending in every reachable state, and
    it is the one [reconnectTimer] refers to.  Scheduling a reconnect cancels
    the pending timer before it arms the new one, also after a failed health
    check; reconnect() and updateEndpoint() cancel it before they connect. *)
Theorem single_reconnect_timer (w : World) :
  reachable w →
  (length (timeouts w) ≤ 1)%nat ∧
  (∀ t, t ∈ timeouts w → reconnectTimer w = Some t.1) ∧
  (reconnectAttempts (state w) < MAX_RECONNECT_ATTEMPTS →
     timeouts (exec scheduleReconnect w)
       = [(nextHandle w, backoffDelay (reconnectAttempts (state w)))]) ∧
  (∀ startTime r, checkOllamaRunning r = false →
     (length (timeouts (exec (healthCheck_probed startTime r) w)) ≤ 1)%nat) ∧
  timeouts (exec clearReconnectTimer w) = [] ∧
  timeouts (exec reconnect w) = [] ∧
  (∀ endpoint, timeouts (exec (updateEndpoint endpoint) w) = []).
Proof.
  intros Hr. pose proof (reachable_invariant w Hr) as Hinv.
  split; [by apply invariant_timeouts_length|].
  split.
  { intros t Hin. destruct Hinv as [_ _ [Ht | (h & d & Ht & Hrt)]]; rewrite Ht in Hin.
    - by apply elem_of_nil in Hin.
    - by apply list_elem_of_singleton in Hin as ->. }
  split; [by apply scheduleReconnect_replaces|].
  split.
  { intros startTime r Hfail. apply invariant_timeouts_length.
    apply (resume_invariant (HealthProbe startTime) (Responded r) w); [done|reflexivity]. }
  split; [by apply clearReconnectTimer_timeouts|].
  destruct Hinv as [_ _ Ht].
  split; [|intros endpoint]; destruct_world w; crunch; timer_cases Ht.
Qed.

(** After the first failed attempt one timer is pending; reconnect()
    cancels it. *)
Lemma single_reconnect_timer_witness :
  timeouts (after [Settled 0 (Responded (Rejected "fetch failed"));
                   Settled 0 (LaunchOutcome false [])]) = [(0%nat, 1000)] ∧
  (length (timeouts (after [Settled 0 (Responded (Rejected "fetch failed"));
                            Settled 0 (LaunchOutcome false [])])) ≤ 1)%nat ∧
  timeouts (exec reconnect (after [Settled 0 (Responded (Rejected "fetch failed"));
                                   Settled 0 (LaunchOutcome false [])])) = [].
Proof.
  split; [vm_compute; reflexivity|].
  destruct (single_reconnect_timer
              (after [Settled 0 (Responded (Rejected "fetch failed"));
                      Settled 0 (LaunchOutcome false [])])
              (after_reachable _)) as (H1 & _ & _ & _ & _ & H2 & _).
  split; [exact H1 | exact H2].
Defined.

(** ** The health check *)

Lemma healthCheck_probes_version (w : World) :
  exec healthCheck w =
    if bool_decide (status (state w) = Connected)
    then with_pending (λ l, l ++ [HealthProbe (clock w)])
           (with_effects
              (λ l, l ++ [Fetch "GET" (ollamaEndpoint w +:+ "/api/version") None 3000]) w)
    else w.
Proof. destruct_world w. by crunch. Qed.

(** C8. A health probe that fails (status not ok, or rejected by a timeout or
    a network error) while status = Connected sets status = Disconnected with
    lastError "Connection lost" and fires it, then schedules the reconnect:
    the first timer of the backoff is armed, the only one pending, and the
    record goes on to Reconnecting with the countdown as lastError.
    currentModel, availableModels, lastSuccessfulConnection and latency are
    as before. *)
Theorem health_failure_disconnects (w : World) (startTime : Z) (r : Response) :
  reachable w → status (state w) = Connected → checkOllamaRunning r = false →
  let lost := exec (updateStatus Disconnected (Some "Connection lost")) w in
  let w' := exec (healthCheck_probed startTime r) w in
  w' = exec scheduleReconnect lost ∧
  status (state lost) = Disconnected ∧ lastError (state lost) = Some "Connection lost" ∧
  (∃ st, status st = Reconnecting ∧
     effects w' = effects w ++ [StatusChanged (state lost); StatusChanged st]) ∧
  timeouts w' = [(nextHandle w, 1000)] ∧ reconnectTimer w' = Some (nextHandle w) ∧
  status (state w') = Reconnecting ∧
  lastError (state w') = Some "Reconnecting in 1s..." ∧
  reconnectAttempts (state w') = 1 ∧
  currentModel (state w') = currentModel (state w) ∧
  availableModels (state w') = availableModels (state w) ∧
  lastSuccessfulConnection (state w') = lastSuccessfulConnection (state w) ∧
  latency (state w') = latency (state w).
Proof.
  intros Hr Hc Hfail. pose proof (reachable_invariant w Hr) as [_ Hclean Ht].
  destruct (Hclean Hc) as [_ H0]. simpl.
  split; [by destruct r|].
  assert (healthCheck_probed startTime r = (updateStatus Disconnected (Some "Connection lost");; scheduleReconnect)) as -> by (by destruct r).
  destruct_world w. destruct st; simpl in *; subst.
  crunch; (split; [done|]); (split; [done|]);
    (split; [eexists; split; [|by rewrite <-app_assoc]; done|]);
    (split; [timer_cases Ht|]); done.
Qed.

Lemma health_failure_disconnects_witness :
  let w' := exec (healthCheck_probed 0 (Rejected "fetch failed")) connectedWorld in
  status (state w') = Reconnecting ∧ timeouts w' = [(1%nat, 1000)] ∧
  availableModels (state w') = ["a"; "b"]%string.
Proof.
  destruct (health_failure_disconnects connectedWorld 0 (Rejected "fetch failed")
              connectedWorld_reachable eq_refl eq_refl)
    as (_ & _ & _ & _ & Ht & _ & Hs & _ & _ & _ & Hm & _).
  split; [exact Hs|]. split; [exact Ht|]. exact Hm.
Defined.

(** ** Who writes the model list *)

(** The only event that writes [availableModels]: the model list of a
    [connect()] comes back ok. *)
Definition completesConnect (e : Event) (w : World) : option (list string) :=
  match e with
  | Settled i (Responded (HttpOk models)) =>
      match pending w !! i with Some (ConnectTags _ _) => Some (default [] models) | _ => None end
  | _ => None
  end.

Lemma step_availableModels e w w' :
  step e w = Some w' →
  match completesConnect e w with
  | Some models => availableModels (state w') = models ∧ status (state w') = Connected
  | None => availableModels (state w') = availableModels (state w)
  end.
Proof.
  intros Hs. destruct_world w.
  destruct e as [| | | | | | | | |i r]; simpl in Hs; simplify_option_eq;
    try (crunch; done).
  match goal with H : resume ?t _ _ = _ |- _ => destruct t end;
    destruct r as [[]|]; simpl in *; simplify_option_eq; crunch; done.
Qed.

(** No [connect()] completes along [es]. *)
Fixpoint noConnectCompletes (es : list Event) (w : World) : bool :=
  match es with
  | [] => true
  | e :: es =>
      bool_decide (completesConnect e w = None) &&
      match step e w with Some w' => noConnectCompletes es w' | None => true end
  end.

Lemma run_availableModels es w w' :
  run es w = Some w' → noConnectCompletes es w = true →
  availableModels (state w') = availableModels (state w).
Proof.
  revert w. induction es as [|e es IH]; simpl; intros w Hr Hq.
  - by simplify_eq.
  - destruct (step e w) as [w1|] eqn:Hs; simpl in Hr; [|done].
    apply andb_prop in Hq as [Hnone Hq]. apply bool_decide_eq_true in Hnone.
    rewrite (IH w1 Hr Hq).
    pose proof (step_availableModels e w w1 Hs) as H. by rewrite Hnone in H.
Qed.

(** C10. availableModels is written by the success path of connect() and by
    nothing else: an event either completes a connect(), and the list
    becomes the one the backend reported, or leaves the list as it was.  So
    the list stays what it was along every execution in which no connect()
    completes, whatever else happens (health checks, model switches, failed
    attempts, reconnects): the health check requests /api/version only, and
    neither it nor switchModel, scheduleReconnect or the start of
    reconnect() and updateEndpoint() touches the list. *)
Theorem availableModels_single_writer (w : World) :
  (∀ e w', step e w = Some w' →
     match completesConnect e w with
     | Some models => availableModels (state w') = models ∧ status (state w') = Connected
     | None => availableModels (state w') = availableModels (state w)
     end) ∧
  (∀ es w', run es w = Some w' → noConnectCompletes es w = true →
     availableModels (state w') = availableModels (state w)) ∧
  (exec healthCheck w =
     if bool_decide (status (state w) = Connected)
     then with_pending (λ l, l ++ [HealthProbe (clock w)])
            (with_effects
               (λ l, l ++ [Fetch "GET" (ollamaEndpoint w +:+ "/api/version") None 3000]) w)
     else w) ∧
  (∀ startTime r,
     availableModels (state (exec (healthCheck_probed startTime r) w))
       = availableModels (state w)) ∧
  (∀ modelName r,
     availableModels (state (exec (switchModel modelName) w)) = availableModels (state w) ∧
     availableModels (state (exec (switchModel_probed modelName r) w))
       = availableModels (state w)) ∧
  availableModels (state (exec scheduleReconnect w)) = availableModels (state w) ∧
  availableModels (state (exec reconnect w)) = availableModels (state w) ∧
  (∀ endpoint,
     availableModels (state (exec (updateEndpoint endpoint) w)) = availableModels (state w)).
Proof.
  split; [intros e w'; apply step_availableModels|].
  split; [intros es w'; apply run_availableModels|].
  split; [apply healthCheck_probes_version|].
  destruct_world w.
  split; [intros ? []; by crunch|].
  split; [intros ? []; by crunch|].
  repeat split; intros; by crunch.
Qed.

(** A connected manager whose health check passes, ten seconds later, and
    which then switches to model "a": the list is still the one of the last
    connect(). *)
Lemma availableModels_single_writer_witness :
  ∃ w', run [Elapsed 10000; IntervalFired 0; Settled 0 (Responded (HttpOk None));
             Called_switchModel "a"; Settled 0 (Responded (HttpOk None))]
            connectedWorld = Some w' ∧
        status (state w') = Connected ∧ currentModel (state w') = Some "a"%string ∧
        availableModels (state w') = availableModels (state connectedWorld).
Proof.
  eexists. split; [by vm_compute|]. split; [reflexivity|]. split; [reflexivity|].
  apply (availableModels_single_writer connectedWorld); by vm_compute.
Defined.

(** ** The reconnect notification *)

Definition reconnectedMessage : Effect :=
  InformationMessage "Ollama reconnected successfully!".

(** A successful [connect()] fires the new record and nothing else. *)
Lemma connect_tested_effects (w : World) c startTime models :
  let w' := exec (connect_tested c startTime (HttpOk models)) w in
  effects w' = effects w ++ [StatusChanged (state w')].
Proof. destruct_world w. by crunch. Qed.

Lemma step_effects e w w' :
  step e w = Some w' → ∃ l, effects w' = effects w ++ l ∧ reconnectedMessage ∉ l.
Proof.
  intros Hs. destruct_world w.
  assert (∀ l : list Effect, Forall (λ x, x ≠ reconnectedMessage) l → reconnectedMessage ∉ l)
    as Hnot.
  { intros l Hl Hin. rewrite Forall_forall in Hl. by apply (Hl _ Hin). }
  destruct e as [| | | | | | | | |i r]; simpl in Hs; simplify_option_eq.
  10: match goal with H : resume ?t _ _ = _ |- _ => destruct t end;
      destruct r as [[]|]; simpl in *; simplify_option_eq.
  all: crunch; rewrite <-?app_assoc; simpl;
    try (eexists; split; [reflexivity|]; apply Hnot; repeat constructor; done);
    exists []; (split; [by rewrite app_nil_r | apply not_elem_of_nil]).
Qed.

(** The message is never shown, in no execution. *)
Lemma reconnectedMessage_never_shown w : reachable w → reconnectedMessage ∉ effects w.
Proof.
  induction 1 as [endpoint now|w e w' _ IH Hs].
  - vm_compute. intros H.
    repeat (apply elem_of_cons in H as [H|H]; [discriminate H|]). by apply elem_of_nil in H.
  - destruct (step_effects e w w' Hs) as (l & -> & Hl).
    rewrite elem_of_app. tauto.
Qed.

(** Two attempts fail, the second timer fires and this time the backend
    answers. *)
Definition recoveryAttempt : list Event :=
  [Settled 0 (Responded (Rejected "fetch failed")); Settled 0 (LaunchOutcome false []);
   TimeoutFired 0;
   Settled 0 (Responded (Rejected "fetch failed")); Settled 0 (LaunchOutcome false []);
   TimeoutFired 2;
   Settled 0 (Responded (HttpOk None))].

Definition isInformationMessage (e : Effect) : bool :=
  match e with InformationMessage _ => true | _ => false end.

(** C6 fails on the code.  After two failed attempts the third connect()
    succeeds: the record goes from Starting with reconnectAttempts = 2 to
    Connected, and "Ollama reconnected successfully!" is not among the
    effects, which hold no information message at all: [connect_tested]
    tests the counter after it has set it to 0. *)
Theorem reconnected_message_missing :
  status (state (after recoveryAttempt)) = Starting ∧
  reconnectAttempts (state (after recoveryAttempt)) = 2 ∧
  pending (after recoveryAttempt) = [ConnectTags FromElsewhere 0] ∧
  (after (recoveryAttempt ++ [Settled 0 (Responded (HttpOk (Some ["a"]%string)))])
     = exec (connect_tested FromElsewhere 0 (HttpOk (Some ["a"]%string)))
         (with_pending (delete 0%nat) (after recoveryAttempt))) ∧
  status (state (after (recoveryAttempt ++
    [Settled 0 (Responded (HttpOk (Some ["a"]%string)))]))) = Connected ∧
  (reconnectedMessage ∉ effects (after (recoveryAttempt ++
    [Settled 0 (Responded (HttpOk (Some ["a"]%string)))]))) ∧
  filter (λ e, isInformationMessage e = true) (effects (after (recoveryAttempt ++
    [Settled 0 (Responded (HttpOk (Some ["a"]%string)))]))) = [].
Proof.
  repeat (split; [by vm_compute|]). split; [|by vm_compute].
  apply reconnectedMessage_never_shown, after_reachable.
Qed.

(** ** The ceiling *)

(** What the user does to try again. *)
Definition explicitRetry (e : Event) : bool :=
  match e with
  | Called_connect | Called_reconnect | Called_updateEndpoint _ => true
  | PromptAnswered action => bool_decide (action = Some "Retry"%string)
  | _ => false
  end.

(** The attempts are used up: the counter is at the ceiling, the last
    failure has been recorded and no timer is left. *)
Definition exhausted (w : World) : Prop :=
  MAX_RECONNECT_ATTEMPTS ≤ reconnectAttempts (state w) ∧
  status (state w) = Disconnected ∧ timeouts w = [].

Lemma scheduleReconnect_ceiling (w : World) :
  MAX_RECONNECT_ATTEMPTS ≤ reconnectAttempts (state w) →
  exec scheduleReconnect w = with_prompts S (with_effects (λ l, l ++ [retryPrompt]) w).
Proof. intros Hmax. destruct_world w. by crunch. Qed.

Lemma step_timeouts_ceiling e w w' :
  MAX_RECONNECT_ATTEMPTS ≤ reconnectAttempts (state w) →
  step e w = Some w' → ∀ t, t ∈ timeouts w' → t ∈ timeouts w.
Proof.
  intros Hmax Hs t. destruct_world w.
  destruct e as [| | | | | | | | |i r]; simpl in Hs; simplify_option_eq.
  10: match goal with H : resume ?t _ _ = _ |- _ => destruct t end;
      destruct r as [[]|]; simpl in *; simplify_option_eq.
  all: crunch; rewrite ?list_elem_of_filter; tauto.
Qed.

Lemma exhausted_stable e w w' :
  exhausted w → step e w = Some w' →
  explicitRetry e = false → completesConnect e w = None → exhausted w'.
Proof.
  intros (Hmax & Hst & Ht) Hs Hnr Hnc. destruct_world w. subst. unfold exhausted.
  destruct e as [| | | | | | | | |i r]; simpl in Hs, Hnr; simplify_option_eq.
  6: match goal with H : resume ?t _ _ = _ |- _ => destruct t end;
     destruct r as [[]|]; simpl in *; simplify_option_eq.
  all: crunch; try done.
  all: try match goal with H : _ ∈ [] |- _ => by apply elem_of_nil in H end.
Qed.

(** C4, amended.  With reconnectAttempts at the ceiling of 10,
    [scheduleReconnect] arms no timer and only puts the question to the
    user, and no event whatever adds a reconnect timer.  The counter reaches
    10 when the tenth timer is armed, and a timer that is pending at the
    ceiling still fires: the manager then enters Starting for one more
    automatic attempt, the counter staying as it is.  An attempt or health
    check that fails at the ceiling leaves the manager Disconnected, counter
    and timers as they were.  Once it is Disconnected with no timer left, it
    stays so through every event other than an explicit retry by the user
    and a connect() that completes.  The Retry answer and reconnect() set
    reconnectAttempts to 0 and enter Starting. *)
Theorem ceiling_stops_reconnecting (w : World) :
  MAX_RECONNECT_ATTEMPTS ≤ reconnectAttempts (state w) →
  exec scheduleReconnect w = with_prompts S (with_effects (λ l, l ++ [retryPrompt]) w) ∧
  (∀ e w', step e w = Some w' → ∀ t, t ∈ timeouts w' → t ∈ timeouts w) ∧
  (∀ h w', step (TimeoutFired h) w = Some w' →
     status (state w') = Starting ∧
     reconnectAttempts (state w') = reconnectAttempts (state w) ∧
     timeouts w' = filter (λ t, t.1 ≠ h) (timeouts w) ∧
     pending w' = pending w ++ [ConnectCheck FromElsewhere]) ∧
  (∀ c message startTime r, checkOllamaRunning r = false →
     Forall (λ w', status (state w') = Disconnected ∧
                   reconnectAttempts (state w') = reconnectAttempts (state w) ∧
                   timeouts w' = timeouts w ∧ prompts w' = S (prompts w) ∧
                   last (effects w') = Some retryPrompt)
       [exec (connect_started c false) w; exec (connect_failed c message) w;
        exec (healthCheck_probed startTime r) w]) ∧
  (status (state w) = Disconnected → timeouts w = [] →
     ∀ e w', step e w = Some w' →
       explicitRetry e = false → completesConnect e w = None →
       MAX_RECONNECT_ATTEMPTS ≤ reconnectAttempts (state w') ∧
       status (state w') = Disconnected ∧ timeouts w' = []) ∧
  Forall (λ w', reconnectAttempts (state w') = 0 ∧ status (state w') = Starting ∧
                last (pending w') = Some (ConnectCheck FromElsewhere))
    [exec (promptAnswered (Some "Retry"%string)) w; exec reconnect w].
Proof.
  intros Hmax. split; [by apply scheduleReconnect_ceiling|].
  split; [intros e w'; by apply step_timeouts_ceiling|].
  split.
  { intros h w' Hs. simpl in Hs. case_bool_decide; [|done]. simplify_eq.
    destruct_world w. by crunch. }
  split.
  { intros c message startTime r Hr. destruct_world w.
    destruct r; [done|..]; repeat first [apply Forall_nil_2 | apply Forall_cons_2];
      crunch; rewrite ?last_snoc; done. }
  split.
  { intros Hst Ht e w' Hs Hnr Hnc. by apply (exhausted_stable e w w'). }
  destruct_world w. repeat first [apply Forall_nil_2 | apply Forall_cons_2];
    crunch; rewrite ?last_snoc; done.
Qed.

(** ** An endpoint that never answers *)

Definition notInstalled : string := "Ollama is not installed or cannot be started".

(** What an observer reads off a status notification: the status, the
    counter and the message. *)
Definition notice (e : Effect) : option (ConnectionStatus * Z * option string) :=
  match e with
  | StatusChanged p => Some (status p, reconnectAttempts p, lastError p)
  | _ => None
  end.

Definition observed (w : World) : list (ConnectionStatus * Z * option string) :=
  omap notice (effects w).

(** The events of an execution in which no probe is answered, the backend
    does not come up and the user does nothing. *)
Definition unreachableEvent (e : Event) : bool :=
  match e with
  | Elapsed _ | TimeoutFired _ | IntervalFired _ => true
  | Settled _ (Responded r) => negb (checkOllamaRunning r)
  | Settled _ (LaunchOutcome installed trace) =>
      match startOllama installed trace with Some (true, _) => false | _ => true end
  | _ => false
  end.

Definition countdown (attempts : Z) : string :=
  "Reconnecting in " +:+ pretty (backoffDelay attempts `div` 1000) +:+ "s...".

(** The notifications of one round, [m] failures having been counted: the
    failure, the countdown of the next attempt, and that attempt starting. *)
Definition roundNotices (m : nat) : list (ConnectionStatus * Z * option string) :=
  [(Disconnected, Z.of_nat m, Some notInstalled);
   (Reconnecting, Z.of_nat m + 1, Some (countdown (Z.of_nat m)));
   (Starting, Z.of_nat m + 1, None)].

Fixpoint noticesUpTo (n : nat) : list (ConnectionStatus * Z * option string) :=
  match n with
  | O => [(Starting, 0, None)]
  | S m => noticesUpTo m ++ roundNotices m
  end.

Definition unreachableNotices : list (ConnectionStatus * Z * option string) :=
  noticesUpTo 10 ++ [(Disconnected, 10, Some notInstalled)].

Inductive Phase := Checking | Launching | Waiting | Exhausted.

Definition isLaunchPoll (t : Task) : bool :=
  match t with LaunchPoll => true | _ => false end.

(** The halves of [connect()] that are suspended: what is pending apart
    from the late probes of a launch. *)
Definition underWay (w : World) : list Task :=
  filter (λ t, isLaunchPoll t = false) (pending w).

Definition inPhase (n : nat) (p : Phase) (w : World) : Prop :=
  (n ≤ 10)%nat ∧ reconnectAttempts (state w) = Z.of_nat n ∧
  match p with
  | Checking =>
      (∃ c, underWay w = [ConnectCheck c]) ∧ timeouts w = [] ∧
      status (state w) = Starting ∧ observed w = noticesUpTo n
  | Launching =>
      (∃ c, underWay w = [ConnectStart c]) ∧ timeouts w = [] ∧
      status (state w) = Starting ∧ observed w = noticesUpTo n
  | Waiting =>
      underWay w = [] ∧
      (∃ h, timeouts w = [(h, backoffDelay (Z.of_nat n - 1))]) ∧
      status (state w) = Reconnecting ∧
      ∃ m, n = S m ∧ observed w = noticesUpTo m ++ take 2 (roundNotices m)
  | Exhausted =>
      n = 10%nat ∧ underWay w = [] ∧ timeouts w = [] ∧
      status (state w) = Disconnected ∧ observed w = unreachableNotices
  end.

(** The first probe fails, the launch fails, and each of the ten timers
    fires into an attempt that fails the same way.  Handle 1 is the health
    check interval. *)
Definition failedAttempt : list Event :=
  [Settled 0 (Responded (Rejected "fetch failed")); Settled 0 (LaunchOutcome false [])].

Definition unreachableScript : list Event :=
  failedAttempt ++
  flat_map (λ h, TimeoutFired h :: failedAttempt) [0; 2; 3; 4; 5; 6; 7; 8; 9; 10]%nat.

Lemma observed_app w l :
  omap notice (effects w ++ l) = observed w ++ omap notice l.
Proof. apply omap_app. Qed.

Lemma construct_inPhase endpoint now : inPhase 0 Checking (construct endpoint now).
Proof. repeat split; simpl; eauto. lia. Qed.

Lemma noticesUpTo_prefix n m : (n ≤ m)%nat → noticesUpTo n `prefix_of` noticesUpTo m.
Proof.
  induction 1 as [|m _ IH]; [done|]. simpl.
  etrans; [exact IH|]. by apply prefix_app_r.
Qed.

Lemma inPhase_prefix n p w : inPhase n p w → observed w `prefix_of` unreachableNotices.
Proof.
  intros (Hn & _ & Hp). unfold unreachableNotices.
  destruct p.
  - destruct Hp as (_ & _ & _ & ->). apply prefix_app_r. by apply noticesUpTo_prefix.
  - destruct Hp as (_ & _ & _ & ->). apply prefix_app_r. by apply noticesUpTo_prefix.
  - destruct Hp as (_ & _ & _ & m & -> & ->). apply prefix_app_r.
    etrans; [|apply (noticesUpTo_prefix (S m)); lia]. simpl.
    apply prefix_app. by exists [(Starting, Z.of_nat m + 1, None)].
  - by destruct Hp as (_ & _ & _ & _ & ->).
Qed.

Ltac observe Hobs :=
  unfold observed in *; simpl in *; rewrite ?omap_app; simpl; rewrite ?Hobs, ?app_nil_r.

(** A late probe that is answered leaves the pending attempts as they are;
    when one attempt is under way, any other pending task is a late probe. *)
Lemma filter_delete_late (l : list Task) (i : nat) :
  l !! i = Some LaunchPoll →
  filter (λ t, isLaunchPoll t = false) (delete i l) = filter (λ t, isLaunchPoll t = false) l.
Proof.
  revert i. induction l as [|t l IH]; intros [|i] Hi; simplify_eq/=; [done|].
  rewrite !filter_cons. case_decide; [f_equal|]; by apply IH.
Qed.

Lemma filter_delete_single (l : list Task) (i : nat) (t t0 : Task) :
  l !! i = Some t → isLaunchPoll t = false →
  filter (λ t, isLaunchPoll t = false) l = [t0] →
  t = t0 ∧ filter (λ t, isLaunchPoll t = false) (delete i l) = [].
Proof.
  revert i. induction l as [|t1 l IH]; intros i Hi Ht Hf; [done|].
  rewrite filter_cons in Hf. destruct i as [|i]; simplify_eq/=.
  - rewrite decide_True in Hf by done. by simplify_eq.
  - rewrite filter_cons. case_decide.
    + simplify_eq. assert (t ∈ filter (λ t, isLaunchPoll t = false) l) as Hin.
      { apply list_elem_of_filter. split; [done|]. by eapply list_elem_of_lookup_2. }
      match goal with H : filter _ l = [] |- _ => rewrite H in Hin end.
      by apply elem_of_nil in Hin.
    + by apply IH.
Qed.

Lemma filter_lookup_none (l : list Task) (i : nat) (t : Task) :
  l !! i = Some t → filter (λ t, isLaunchPoll t = false) l = [] → t = LaunchPoll.
Proof.
  intros Hi Hf. destruct (isLaunchPoll t) eqn:Ht; [by destruct t|].
  assert (t ∈ filter (λ t, isLaunchPoll t = false) l) as Hin.
  { apply list_elem_of_filter. split; [done|]. by eapply list_elem_of_lookup_2. }
  rewrite Hf in Hin. by apply elem_of_nil in Hin.
Qed.

Lemma filter_late (late : nat) :
  filter (λ t, isLaunchPoll t = false) (replicate late LaunchPoll) = [].
Proof. induction late as [|late IH]; [done|]. simpl. by rewrite filter_cons_False. Qed.

(** In an execution where nothing answers, a late probe that is answered
    is only taken off the table. *)
Lemma latePoll_step i r w w' :
  pending w !! i = Some LaunchPoll →
  unreachableEvent (Settled i r) = true → step (Settled i r) w = Some w' →
  w' = with_pending (delete i) w.
Proof.
  intros Hi He Hs. simpl in Hs. rewrite Hi in Hs. simpl in Hs.
  destruct r as [r|]; [|done]. simpl in He, Hs.
  destruct (checkOllamaRunning r); [done|]. by simplify_eq.
Qed.

Lemma inPhase_late n p i w :
  inPhase n p w → pending w !! i = Some LaunchPoll → inPhase n p (with_pending (delete i) w).
Proof.
  intros (Hn & Ha & Hp) Hi. split; [done|]. split; [done|].
  unfold underWay in *. simpl. rewrite (filter_delete_late _ _ Hi). by destruct p.
Qed.

Ltac underway :=
  unfold underWay in *; simpl in *;
  rewrite ?filter_app, ?filter_late, ?app_nil_r;
  repeat match goal with H : filter _ _ = _ |- _ => rewrite H end;
  rewrite ?filter_cons_True by done; rewrite ?filter_nil; simpl.

Lemma inPhase_step_late n p i r w w' :
  inPhase n p w → pending w !! i = Some LaunchPoll →
  unreachableEvent (Settled i r) = true → step (Settled i r) w = Some w' →
  inPhase n p w' ∧ state w' = state w ∧ prompts w' = prompts w ∧
  (length (pending w') ≤ length (pending w))%nat.
Proof.
  intros Hph Hi He Hs. apply latePoll_step in Hs as ->; [|done..].
  split; [by apply inPhase_late|]. split; [done|]. split; [done|].
  simpl. rewrite length_delete by eauto. lia.
Qed.

Lemma inPhase_step n p e w w' :
  inPhase n p w → unreachableEvent e = true → step e w = Some w' →
  match p with
  | Checking => inPhase n Checking w' ∨ inPhase n Launching w'
  | Launching =>
      inPhase n Launching w' ∨ inPhase (S n) Waiting w' ∨ inPhase n Exhausted w'
  | Waiting => inPhase n Waiting w' ∨ inPhase n Checking w'
  | Exhausted =>
      inPhase n Exhausted w' ∧ state w' = state w ∧ prompts w' = prompts w ∧
      (length (pending w') ≤ length (pending w))%nat
  end.
Proof.
  intros Hph He Hs.
  destruct e as [dt| | | | | | |h|h|i r]; simpl in He; try done.
  4: { (* a probe or a launch is answered *)
    destruct (pending w !! i) as [t|] eqn:Hi; [|by simpl in Hs; rewrite Hi in Hs].
    destruct (isLaunchPoll t) eqn:Hl.
    { assert (t = LaunchPoll) as -> by (by destruct t).
      destruct (inPhase_step_late n p i r w w' Hph Hi He Hs) as (? & ? & ? & ?).
      destruct p; auto. }
    simpl in Hs. rewrite Hi in Hs. simpl in Hs.
    destruct Hph as (Hn & Ha & Hp). unfold inPhase. destruct p.
    - destruct Hp as ((c & Hc) & Ht & Hst & Hobs).
      destruct (filter_delete_single _ _ _ _ Hi Hl Hc) as [-> Hrest].
      destruct_world w. destruct r as [[]|]; simpl in *; simplify_option_eq.
      all: right; crunch; observe Hobs; underway; by eauto 10.
    - destruct Hp as ((c & Hc) & Ht & Hst & Hobs).
      destruct (filter_delete_single _ _ _ _ Hi Hl Hc) as [-> Hrest].
      destruct_world w. destruct r as [[]|]; simpl in *; simplify_option_eq.
      match goal with H : (bool * nat)%type |- _ => destruct H as [[] late]; [done|] end.
      simpl in *; simplify_eq.
      destruct c; crunch; observe Hobs; underway; rewrite ?Ha in *; consts.
      all: first
        [ right; right; assert (n = 10%nat) as -> by lia; by repeat split
        | right; left; split; [lia|]; split; [lia|]; split; [done|];
          split; [eexists; repeat f_equal; lia|]; split; [done|];
          exists n; split; [done|]; by rewrite <-app_assoc ].
    - destruct Hp as (Hc & _). by rewrite (filter_lookup_none _ _ _ Hi Hc) in Hl.
    - destruct Hp as (_ & Hc & _). by rewrite (filter_lookup_none _ _ _ Hi Hc) in Hl. }
  all: destruct Hph as (Hn & Ha & Hp); unfold inPhase; simpl in Hs; simplify_option_eq.
  - (* time passes *)
    destruct p; [left | left | left |]; by eauto 10.
  - (* a timer fires *)
    destruct p.
    + destruct Hp as (_ & Ht & _). rewrite Ht in *.
      by match goal with H : _ ∈ _ |- _ => apply elem_of_nil in H end.
    + destruct Hp as (_ & Ht & _). rewrite Ht in *.
      by match goal with H : _ ∈ _ |- _ => apply elem_of_nil in H end.
    + destruct Hp as (Hc & (h' & Ht) & Hst & m & -> & Hobs). rewrite Ht in *.
      match goal with H : _ ∈ _ |- _ => apply list_elem_of_singleton in H as -> end.
      right. destruct_world w. crunch. observe Hobs. underway.
      rewrite filter_handle_single.
      rewrite Ha, <-app_assoc. unfold roundNotices. simpl.
      replace (Z.of_nat (S m)) with (Z.of_nat m + 1) by lia. by eauto 10.
    + destruct Hp as (_ & _ & Ht & _). rewrite Ht in *.
      by match goal with H : _ ∈ _ |- _ => apply elem_of_nil in H end.
  - (* the health check interval fires *)
    destruct p;
      [destruct Hp as ((c & Hc) & Ht & Hst & Hobs); left
      |destruct Hp as ((c & Hc) & Ht & Hst & Hobs); left
      |destruct Hp as (Hc & (h' & Ht) & Hst & m & -> & Hobs); left
      |destruct Hp as (-> & Hc & Ht & Hst & Hobs)];
      destruct_world w; crunch; try congruence; by eauto 10.
Qed.

Lemma unreachable_run_inPhase es : ∀ n p w w',
  inPhase n p w → Forall (λ e, unreachableEvent e = true) es → run es w = Some w' →
  ∃ n' p', inPhase n' p' w'.
Proof.
  induction es as [|e es IH]; simpl; intros n p w w' Hp Hes Hr.
  - simplify_eq. eauto.
  - apply Forall_cons in Hes as [He Hes].
    destruct (step e w) as [w1|] eqn:Hs; simpl in Hr; [|done].
    pose proof (inPhase_step n p e w w1 Hp He Hs) as Hnext.
    destruct p; [destruct Hnext as [?|?] | destruct Hnext as [?|[?|?]]
                | destruct Hnext as [?|?] | destruct Hnext as [? _]]; eauto.
Qed.

Lemma unreachableScript_runs :
  run unreachableScript (construct localhost 0) = Some (after unreachableScript).
Proof. vm_compute; reflexivity. Qed.

Lemma unreachableNotices_listed :
  unreachableNotices =
    [(Starting, 0, None);
     (Disconnected, 0, Some notInstalled); (Reconnecting, 1, Some "Reconnecting in 1s...");
     (Starting, 1, None);
     (Disconnected, 1, Some notInstalled); (Reconnecting, 2, Some "Reconnecting in 2s...");
     (Starting, 2, None);
     (Disconnected, 2, Some notInstalled); (Reconnecting, 3, Some "Reconnecting in 4s...");
     (Starting, 3, None);
     (Disconnected, 3, Some notInstalled); (Reconnecting, 4, Some "Reconnecting in 8s...");
     (Starting, 4, None);
     (Disconnected, 4, Some notInstalled); (Reconnecting, 5, Some "Reconnecting in 16s...");
     (Starting, 5, None);
     (Disconnected, 5, Some notInstalled); (Reconnecting, 6, Some "Reconnecting in 30s...");
     (Starting, 6, None);
     (Disconnected, 6, Some notInstalled); (Reconnecting, 7, Some "Reconnecting in 30s...");
     (Starting, 7, None);
     (Disconnected, 7, Some notInstalled); (Reconnecting, 8, Some "Reconnecting in 30s...");
     (Starting, 8, None);
     (Disconnected, 8, Some notInstalled); (Reconnecting, 9, Some "Reconnecting in 30s...");
     (Starting, 9, None);
     (Disconnected, 9, Some notInstalled); (Reconnecting, 10, Some "Reconnecting in 30s...");
     (Starting, 10, None);
     (Disconnected, 10, Some notInstalled)]%string.
Proof. vm_compute; reflexivity. Qed.

(** C9 as stated fails.  With an endpoint that never answers, all ten
    timers having fired and nothing left pending, the statuses notified are
    not Starting followed by ten times Disconnected: the third notification
    is Reconnecting, and it is the one that carries attempt 1 and the first
    delay, while the Disconnected ones carry the counter before the
    increment and the launch failure as message; Starting is notified again
    at every attempt. *)
Lemma unreachable_statuses_not_as_claimed :
  run unreachableScript (construct localhost 0) = Some (after unreachableScript) ∧
  forallb unreachableEvent unreachableScript = true ∧
  pending (after unreachableScript) = [] ∧ timeouts (after unreachableScript) = [] ∧
  (observed (after unreachableScript)).*1.*1 ≠ Starting :: replicate 10 Disconnected ∧
  observed (after unreachableScript) !! 1%nat = Some (Disconnected, 0, Some notInstalled) ∧
  observed (after unreachableScript) !! 2%nat
    = Some (Reconnecting, 1, Some "Reconnecting in 1s..."%string) ∧
  observed (after unreachableScript) !! 3%nat = Some (Starting, 1, None) ∧
  length (filter (λ x, x.1.1 = Starting) (observed (after unreachableScript))) = 11%nat.
Proof.
  do 4 (split; [vm_compute; reflexivity|]).
  split; [vm_compute; intros H; discriminate H|].
  repeat split; vm_compute; reflexivity.
Qed.

(** C9, amended.  While no probe is answered, the backend does not come up
    and the user does nothing, the status notifications fired so far are an
    initial segment of: Starting; then for N = 1..10 Disconnected (counter
    N-1, the launch failure), Reconnecting (counter N, "Reconnecting in
    <delay/1000>s...") and Starting (counter N); then Disconnected (counter
    10).  A pending timer belongs to a Reconnecting record and its delay is
    min(1000 * 2^(N-1), 30000) for the counter N.  Once no probe and no timer
    is pending the whole sequence has been notified, the record is
    Disconnected with counter 10, and it stays as it is, with no timer,
    through whatever happens next, until reconnect() sets the counter to 0
    and enters Starting. *)
Theorem unreachable_endpoint_notices
    (endpoint : string) (now : Z) (es : list Event) (w : World) :
  Forall (λ e, unreachableEvent e = true) es →
  run es (construct endpoint now) = Some w →
  observed w `prefix_of` unreachableNotices ∧
  (∀ t, t ∈ timeouts w →
     status (state w) = Reconnecting ∧
     1 ≤ reconnectAttempts (state w) ≤ 10 ∧
     t.2 = Z.min (1000 * 2 ^ (reconnectAttempts (state w) - 1)) 30000 ∧
     last (observed w)
       = Some (Reconnecting, reconnectAttempts (state w),
               Some (countdown (reconnectAttempts (state w) - 1)))) ∧
  (pending w = [] → timeouts w = [] →
     observed w = unreachableNotices ∧
     status (state w) = Disconnected ∧ reconnectAttempts (state w) = 10 ∧
     (∀ e w', unreachableEvent e = true → step e w = Some w' →
        state w' = state w ∧ observed w' = observed w ∧
        pending w' = [] ∧ timeouts w' = []) ∧
     status (state (exec reconnect w)) = Starting ∧
     reconnectAttempts (state (exec reconnect w)) = 0).
Proof.
  intros Hes Hr.
  destruct (unreachable_run_inPhase es 0 Checking _ w
              (construct_inPhase endpoint now) Hes Hr) as (n & p & Hp).
  split; [by eapply inPhase_prefix|].
  split.
  - intros t Hin. destruct Hp as (Hn & Ha & Hp).
    destruct p;
      [destruct Hp as (_ & Ht & _) | destruct Hp as (_ & Ht & _) | |
       destruct Hp as (_ & _ & Ht & _)];
      try (rewrite Ht in Hin; by apply elem_of_nil in Hin).
    destruct Hp as (_ & (h & Ht) & Hst & m & -> & Hobs).
    rewrite Ht in Hin. apply list_elem_of_singleton in Hin as ->.
    rewrite Ha, Hobs. simpl.
    replace (Z.of_nat (S m) - 1) with (Z.of_nat m) by lia.
    replace (Z.of_nat (S m)) with (Z.of_nat m + 1) by lia.
    split; [done|]. split; [lia|]. split; [done|].
    by rewrite last_app.
  - intros Hpend Htime. destruct p.
    + destruct Hp as (_ & _ & (c & Hc) & _). unfold underWay in Hc. by rewrite Hpend in Hc.
    + destruct Hp as (_ & _ & (c & Hc) & _). unfold underWay in Hc. by rewrite Hpend in Hc.
    + destruct Hp as (_ & _ & _ & (h & Hh) & _). by rewrite Hh in Htime.
    + pose proof Hp as (_ & Ha & -> & _ & _ & Hst & Hobs).
      split; [done|]. split; [done|]. split; [done|]. split.
      * intros e w' He Hs.
        destruct (inPhase_step _ _ e w w' Hp He Hs)
          as ((_ & _ & _ & _ & ? & _ & Hobs') & ? & _ & Hlen).
        rewrite Hpend in Hlen. apply Nat.le_0_r, nil_length_inv in Hlen.
        by rewrite Hobs, Hobs'.
      * destruct_world w. by crunch.
Qed.

Lemma unreachable_endpoint_notices_witness :
  observed (after unreachableScript) = unreachableNotices ∧
  status (state (after unreachableScript)) = Disconnected ∧
  reconnectAttempts (state (after unreachableScript)) = 10.
Proof.
  destruct (unreachable_endpoint_notices localhost 0 unreachableScript
              (after unreachableScript)) as (_ & _ & H).
  - unfold unreachableScript, failedAttempt. simpl.
    repeat (apply Forall_cons_2; [reflexivity|]). apply Forall_nil_2.
  - vm_compute; reflexivity.
  - destruct H as (H1 & H2 & H3 & _); [vm_compute; reflexivity | vm_compute; reflexivity |].
    split; [exact H1|]. split; [exact H2 | exact H3].
Defined.

Lemma ceiling_stops_reconnecting_witness :
  exec scheduleReconnect (after unreachableScript)
    = with_prompts S (with_effects (λ l, l ++ [retryPrompt]) (after unreachableScript)) ∧
  timeouts (exec scheduleReconnect (after unreachableScript)) = [] ∧
  status (state (exec (promptAnswered (Some "Retry"%string)) (after unreachableScript)))
    = Starting.
Proof.
  destruct (ceiling_stops_reconnecting (after unreachableScript))
    as (H1 & _ & _ & _ & _ & H2).
  - vm_compute. intros H; discriminate H.
  - split; [exact H1|]. split; [rewrite H1; vm_compute; reflexivity|].
    apply Forall_cons in H2 as [(_ & H2 & _) _]. exact H2.
Defined.

(** The first attempt and nine more have failed: the counter has just
    reached 10 and the tenth timer is armed. *)
Definition tenthArmed : list Event :=
  failedAttempt ++
  flat_map (λ h, TimeoutFired h :: failedAttempt) [0; 2; 3; 4; 5; 6; 7; 8; 9]%nat.

(** C4 as stated fails.  When the counter reaches the ceiling the manager
    is not Disconnected and a reconnect is still to come: ten attempts
    having failed with no success in between, the counter is 10, the status
    is Reconnecting and the tenth timer (30 s) is pending; when it fires,
    with no retry by the user, the manager enters Starting and probes the
    backend once more.  Only the failure of that attempt brings up the
    prompt. *)
Lemma ceiling_reached_not_disconnected :
  run tenthArmed (construct localhost 0) = Some (after tenthArmed) ∧
  forallb unreachableEvent tenthArmed = true ∧
  forallb (λ e, negb (explicitRetry e)) (tenthArmed ++ [TimeoutFired 10]) = true ∧
  reconnectAttempts (state (after tenthArmed)) = MAX_RECONNECT_ATTEMPTS ∧
  status (state (after tenthArmed)) = Reconnecting ∧
  timeouts (after tenthArmed) = [(10%nat, 30000)] ∧
  prompts (after tenthArmed) = 0%nat ∧
  step (TimeoutFired 10) (after tenthArmed) = Some (after (tenthArmed ++ [TimeoutFired 10])) ∧
  status (state (after (tenthArmed ++ [TimeoutFired 10]))) = Starting ∧
  reconnectAttempts (state (after (tenthArmed ++ [TimeoutFired 10]))) = 10 ∧
  last (effects (after (tenthArmed ++ [TimeoutFired 10])))
    = Some (Fetch "GET" "http://localhost:11434/api/version" None 2000).
Proof.
  do 10 (split; [vm_compute; reflexivity|]). vm_compute; reflexivity.
Qed.

(** ** Object identity: what observers hold *)

(** [this.state] is a reference to an object, and so is its
    [availableModels].  The store below keeps the objects the manager has
    created; [read] gives the record a reference stands for, which is what
    the [state] of a [World] holds for [this.state]. *)
Module ObjectModel.

Record StateObject := StateObject_mk {
  o_status : ConnectionStatus;
  o_lastError : option string;
  o_reconnectAttempts : Z;
  o_lastSuccessfulConnection : option Z;
  o_currentModel : option string;
  o_availableModels : nat;           (* reference to the array *)
  o_latency : option Z
}.

Record Heap := Heap_mk {
  objects : gmap nat StateObject;
  arrays : gmap nat (list string)
}.

Record Manager := Manager_mk {
  heap : Heap;
  this_state : nat
}.

Definition read (h : Heap) (r : nat) : option ConnectionState :=
  o ← objects h !! r;
  models ← arrays h !! o_availableModels o;
  Some (ConnectionState_mk (o_status o) (o_lastError o) (o_reconnectAttempts o)
          (o_lastSuccessfulConnection o) (o_currentModel o) models (o_latency o)).

(** An object literal: a new object at a reference not in use. *)
Definition new_object (o : StateObject) (h : Heap) : nat * Heap :=
  let r := fresh (dom (objects h)) in
  (r, Heap_mk (<[r := o]> (objects h)) (arrays h)).

(** [return { ...this.state }]: the reference handed to the caller. *)
Definition getState (m : Manager) : option (nat * Manager) :=
  o ← objects (heap m) !! this_state m;
  let '(r, h) := new_object o (heap m) in
  Some (r, Manager_mk h (this_state m)).

(** [this.state = { ...this.state, status, lastError: error };
    this._onStatusChanged.fire(this.state)]: the reference fired. *)
Definition updateStatus (s : ConnectionStatus) (error : option string) (m : Manager)
    : option (nat * Manager) :=
  o ← objects (heap m) !! this_state m;
  let '(r, h) :=
    new_object (StateObject_mk s error (o_reconnectAttempts o)
                  (o_lastSuccessfulConnection o) (o_currentModel o)
                  (o_availableModels o) (o_latency o)) (heap m) in
  Some (this_state (Manager_mk h r), Manager_mk h r).

(** [this.state.reconnectAttempts++], in place. *)
Definition incrementAttempts (m : Manager) : Manager :=
  Manager_mk
    (Heap_mk
       (alter (λ o, StateObject_mk (o_status o) (o_lastError o) (o_reconnectAttempts o + 1)
                      (o_lastSuccessfulConnection o) (o_currentModel o)
                      (o_availableModels o) (o_latency o))
              (this_state m) (objects (heap m)))
       (arrays (heap m)))
    (this_state m).

(** What the holder of a reference can do to it. *)
Inductive Mutation :=
| AssignField (r : nat) (f : StateObject → StateObject)     (* snapshot.field = value *)
| MutateArray (a : nat) (f : list string → list string).    (* models.push(x), splice, ... *)

Definition mutate (μ : Mutation) (m : Manager) : Manager :=
  match μ with
  | AssignField r f =>
      Manager_mk (Heap_mk (alter f r (objects (heap m))) (arrays (heap m))) (this_state m)
  | MutateArray a f =>
      Manager_mk (Heap_mk (objects (heap m)) (alter f a (arrays (heap m)))) (this_state m)
  end.

(** The record the manager itself sees. *)
Definition current (m : Manager) : option ConnectionState :=
  read (heap m) (this_state m).

(** A manager connected to a backend with models "a" and "b". *)
Definition example : Manager :=
  Manager_mk
    (Heap_mk {[ 0%nat := StateObject_mk Connected None 0 (Some 0) None 0%nat (Some 12) ]}
             {[ 0%nat := ["a"; "b"]%string ]})
    0%nat.

End ObjectModel.

Lemma new_object_fresh o h :
  ObjectModel.objects h !! (ObjectModel.new_object o h).1 = None.
Proof. simpl. apply not_elem_of_dom, is_fresh. Qed.

(** The store refines the record: [updateStatus] on references is
    [updateStatus] on values, and what it fires is the new [this.state]. *)
Lemma updateStatus_refines s error m w :
  ObjectModel.current m = Some (state w) →
  ∃ p m', ObjectModel.updateStatus s error m = Some (p, m') ∧
          p = ObjectModel.this_state m' ∧
          ObjectModel.current m' = Some (state (exec (updateStatus s error) w)).
Proof.
  unfold ObjectModel.current, ObjectModel.read, ObjectModel.updateStatus.
  destruct (ObjectModel.objects (ObjectModel.heap m) !! ObjectModel.this_state m)
    as [o|] eqn:Ho; simpl; [|done].
  destruct (ObjectModel.arrays (ObjectModel.heap m) !! ObjectModel.o_availableModels o)
    as [models|] eqn:Hm; simpl; [|done].
  intros [= Hw]. eexists _, _. split; [done|]. split; [done|]. simpl.
  rewrite lookup_insert_eq. simpl. rewrite Hm. simpl. destruct_world w. by subst.
Qed.

Lemma getState_refines m w :
  ObjectModel.current m = Some (state w) →
  ∃ r m', ObjectModel.getState m = Some (r, m') ∧
          ObjectModel.read (ObjectModel.heap m') r = Some (result getState w) ∧
          ObjectModel.current m' = Some (state w).
Proof.
  unfold ObjectModel.current, ObjectModel.read, ObjectModel.getState.
  destruct (ObjectModel.objects (ObjectModel.heap m) !! ObjectModel.this_state m)
    as [o|] eqn:Ho; simpl; [|done].
  destruct (ObjectModel.arrays (ObjectModel.heap m) !! ObjectModel.o_availableModels o)
    as [models|] eqn:Hm; simpl; [|done].
  intros [= Hw]. eexists _, _. split; [done|]. simpl.
  rewrite lookup_insert_eq. simpl. rewrite Hm. simpl. split; [by rewrite Hw|].
  rewrite lookup_insert_ne.
  - rewrite Ho. simpl. rewrite Hm. simpl. by rewrite Hw.
  - intros Heq. pose proof (is_fresh (dom (ObjectModel.objects (ObjectModel.heap m)))) as Hf.
    rewrite Heq in Hf. apply Hf, elem_of_dom. eauto.
Qed.

Definition o_set_reconnectAttempts (n : Z) (o : ObjectModel.StateObject)
    : ObjectModel.StateObject :=
  ObjectModel.StateObject_mk (ObjectModel.o_status o) (ObjectModel.o_lastError o) n
    (ObjectModel.o_lastSuccessfulConnection o) (ObjectModel.o_currentModel o)
    (ObjectModel.o_availableModels o) (ObjectModel.o_latency o).

(** C7 as stated fails.  The record [getState()] returns shares its
    availableModels array with the manager: pushing a name onto it puts
    the name into the manager's own list.  And the payload of a status
    notification is [this.state] itself: assigning its reconnectAttempts
    changes the manager's counter. *)
Lemma getState_shares_with_observers :
  (∃ r m' o,
     ObjectModel.getState ObjectModel.example = Some (r, m') ∧
     ObjectModel.objects (ObjectModel.heap m') !! r = Some o ∧
     availableModels <$> ObjectModel.current m' = Some ["a"; "b"]%string ∧
     availableModels <$>
       ObjectModel.current
         (ObjectModel.mutate
            (ObjectModel.MutateArray (ObjectModel.o_availableModels o) (λ l, l ++ ["x"]%string))
            m')
       = Some ["a"; "b"; "x"]%string) ∧
  (∃ p m',
     ObjectModel.updateStatus Disconnected (Some "Connection lost"%string) ObjectModel.example
       = Some (p, m') ∧
     reconnectAttempts <$> ObjectModel.current m' = Some 0 ∧
     reconnectAttempts <$>
       ObjectModel.current
         (ObjectModel.mutate (ObjectModel.AssignField p (o_set_reconnectAttempts 99)) m')
       = Some 99).
Proof.
  split.
  - eexists _, _, _. split; [vm_compute; reflexivity|].
    split; [vm_compute; reflexivity|]. split; vm_compute; reflexivity.
  - eexists _, _. split; [vm_compute; reflexivity|]. split; vm_compute; reflexivity.
Qed.

(** C7, amended.  getState() returns a new record that holds the current
    values: the call leaves the manager's record as it is, and no assignment
    to a field of the returned record changes the manager's record.  The
    availableModels of the returned record is the manager's own array, so a
    mutation of that array is a mutation of the manager's list; and what a
    status notification delivers is the manager's record itself, so an
    assignment to the payload is an assignment to the manager's record. *)
Theorem getState_shallow_copy (m : ObjectModel.Manager) (st : ConnectionState) :
  ObjectModel.current m = Some st →
  (∃ r m' o,
     ObjectModel.getState m = Some (r, m') ∧
     r ≠ ObjectModel.this_state m' ∧
     ObjectModel.read (ObjectModel.heap m') r = Some st ∧
     ObjectModel.current m' = Some st ∧
     (∀ f, ObjectModel.current (ObjectModel.mutate (ObjectModel.AssignField r f) m')
             = Some st) ∧
     ObjectModel.objects (ObjectModel.heap m') !! r = Some o ∧
     (∀ g, ObjectModel.current
             (ObjectModel.mutate
                (ObjectModel.MutateArray (ObjectModel.o_availableModels o) g) m')
             = Some (set_availableModels (g (availableModels st)) st))) ∧
  (∀ s error, ∃ p m',
     ObjectModel.updateStatus s error m = Some (p, m') ∧
     p = ObjectModel.this_state m' ∧
     ObjectModel.current m' = Some (set_lastError error (set_status s st)) ∧
     ∀ n, ObjectModel.current
            (ObjectModel.mutate (ObjectModel.AssignField p (o_set_reconnectAttempts n)) m')
            = Some (set_reconnectAttempts n (set_lastError error (set_status s st)))).
Proof.
  unfold ObjectModel.current, ObjectModel.read, ObjectModel.getState,
    ObjectModel.updateStatus.
  destruct (ObjectModel.objects (ObjectModel.heap m) !! ObjectModel.this_state m)
    as [o|] eqn:Ho; simpl; [|done].
  destruct (ObjectModel.arrays (ObjectModel.heap m) !! ObjectModel.o_availableModels o)
    as [models|] eqn:Hm; simpl; [|done].
  intros [= <-].
  assert (fresh (dom (ObjectModel.objects (ObjectModel.heap m))) ≠ ObjectModel.this_state m)
    as Hne.
  { intros Heq. pose proof (is_fresh (dom (ObjectModel.objects (ObjectModel.heap m)))) as Hf.
    rewrite Heq in Hf. apply Hf, elem_of_dom. eauto. }
  split.
  - eexists _, _, o. split; [done|]. simpl. split; [done|].
    rewrite lookup_insert_eq, lookup_insert_ne, Ho by done. simpl. rewrite Hm. simpl.
    split; [done|]. split; [done|]. split.
    { intros f. rewrite lookup_alter_ne, lookup_insert_ne, Ho by done. simpl.
      by rewrite Hm. }
    split; [done|]. intros g. rewrite lookup_alter_eq, Hm. done.
  - intros s error. eexists _, _. split; [done|]. simpl. split; [done|].
    rewrite lookup_insert_eq. simpl. rewrite Hm. simpl. split; [done|].
    intros n. rewrite lookup_alter_eq, lookup_insert_eq. simpl. by rewrite Hm.
Qed.

Lemma getState_shallow_copy_witness :
  ∃ r m',
    ObjectModel.getState ObjectModel.example = Some (r, m') ∧
    r ≠ ObjectModel.this_state m' ∧
    ObjectModel.read (ObjectModel.heap m') r = ObjectModel.current ObjectModel.example.
Proof.
  destruct (getState_shallow_copy ObjectModel.example
              (ConnectionState_mk Connected None 0 (Some 0) None ["a"; "b"]%string (Some 12)))
    as [(r & m' & o & Hg & Hne & Hr & _) _]; [vm_compute; reflexivity|].
  exists r, m'. split; [exact Hg|]. split; [exact Hne|]. rewrite Hr. vm_compute; reflexivity.
Defined.

(** * Further properties of the connection manager *)

(** X1. The reconnect counter stays between 0 and the ceiling in every
    reachable state, whatever the interleaving of attempts, health checks
    and user calls. *)
Theorem reconnectAttempts_bounded (w : World) :
  reachable w → 0 ≤ reconnectAttempts (state w) ≤ MAX_RECONNECT_ATTEMPTS.
Proof. intros Hr. apply (reachable_invariant w Hr). Qed.

(** The ceiling is reached. *)
Lemma reconnectAttempts_bounded_witness :
  reconnectAttempts (state (after unreachableScript)) = 10 ∧
  0 ≤ reconnectAttempts (state (after unreachableScript)) ≤ MAX_RECONNECT_ATTEMPTS.
Proof.
  split; [vm_compute; reflexivity|].
  apply (reconnectAttempts_bounded (after unreachableScript)), after_reachable.
Defined.

(** ** Waiting for the backend to start *)











(** X3. connect() neither cancels the pending reconnect timer nor touches
    the counter, so a manual connect() made while a timer is pending is
    followed by a second attempt when the timer fires: two attempts are then
    in flight.  reconnect() cancels the timer first: after it the timer can
    no longer fire. *)
Theorem connect_keeps_timer (w : World) (h : nat) (d : Z) :
  reachable w → timeouts w = [(h, d)] →
  (∃ w', run [Called_connect; TimeoutFired h] w = Some w' ∧
         pending w' = pending w ++ [ConnectCheck FromElsewhere; ConnectCheck FromElsewhere] ∧
         reconnectAttempts (state w') = reconnectAttempts (state w) ∧
         timeouts w' = []) ∧
  (∃ w', step Called_reconnect w = Some w' ∧
         pending w' = pending w ++ [ConnectCheck FromElsewhere] ∧
         reconnectAttempts (state w') = 0 ∧
         step (TimeoutFired h) w' = None).
Proof.
  intros Hr Ht. pose proof (reachable_invariant w Hr) as [_ _ Hinv].
  destruct Hinv as [Hnil | (h' & d' & Hone & Hrt)]; rewrite Ht in *; [done|].
  simplify_eq. destruct_world w. subst. split.
  - eexists. split.
    + simpl. rewrite bool_decide_eq_true_2; [reflexivity|]. crunch. set_solver.
    + crunch. by rewrite <-app_assoc, filter_handle_single.
  - eexists. split; [reflexivity|]. crunch; [exfalso|done].
    match goal with H : _ ∈ _ |- _ => rewrite filter_handle_single in H; set_solver end.
Qed.

Lemma connect_keeps_timer_witness :
  ∃ w', run [Called_connect; TimeoutFired 0] (after failedAttempt) = Some w' ∧
        pending w' = [ConnectCheck FromElsewhere; ConnectCheck FromElsewhere].
Proof.
  destruct (connect_keeps_timer (after failedAttempt) 0 1000 (after_reachable _))
    as [(w' & Hrun & Hp & _) _]; [vm_compute; reflexivity|].
  exists w'. split; [exact Hrun|]. rewrite Hp. vm_compute; reflexivity.
Defined.

(** X4. A connect() that completes leaves a pending reconnect timer in
    place: the manager becomes Connected with the counter at 0 while the
    timer armed by an overlapping attempt that failed is still pending, and
    when it fires the Connected manager goes back to Starting. *)
Theorem connected_with_timer_pending (w : World) (i : nat) (c : Caller)
    (startTime : Z) (models : option (list string)) :
  pending w !! i = Some (ConnectTags c startTime) →
  ∃ w', step (Settled i (Responded (HttpOk models))) w = Some w' ∧
        status (state w') = Connected ∧ timeouts w' = timeouts w ∧
        ∀ t, t ∈ timeouts w →
          ∃ w'', step (TimeoutFired t.1) w' = Some w'' ∧ status (state w'') = Starting.
Proof.
  intros Hp. destruct_world w. simpl. rewrite Hp. simpl. eexists. split; [done|].
  destruct c; crunch; (split; [done|]); (split; [done|]); intros t Hin.
  all: rewrite bool_decide_eq_true_2 by (by apply list_elem_of_fmap_2); eauto.
Qed.

(** The first attempt and a manual connect() overlap; the first fails and
    arms the timer, the second succeeds. *)
Definition overlappingAttempts : list Event :=
  [Called_connect;
   Settled 0 (Responded (Rejected "fetch failed")); Settled 1 (LaunchOutcome false []);
   Settled 0 (Responded (HttpOk None))].

Lemma connected_with_timer_pending_witness :
  pending (after overlappingAttempts) !! 0%nat = Some (ConnectTags FromElsewhere 0) ∧
  timeouts (after overlappingAttempts) = [(0%nat, 1000)] ∧
  ∃ w', step (Settled 0 (Responded (HttpOk (Some ["a"]%string))))
          (after overlappingAttempts) = Some w' ∧
        status (state w') = Connected ∧ timeouts w' = [(0%nat, 1000)].
Proof.
  split; [vm_compute; reflexivity|]. split; [vm_compute; reflexivity|].
  destruct (connected_with_timer_pending (after overlappingAttempts) 0 FromElsewhere 0
              (Some ["a"]%string)) as (w' & Hs & Hst & Ht & _); [vm_compute; reflexivity|].
  exists w'. split; [exact Hs|]. split; [exact Hst|]. rewrite Ht. vm_compute; reflexivity.
Defined.

(** X5. A failed attempt records its reason only in the Disconnected
    notification: below the ceiling [scheduleReconnect] replaces lastError
    by the countdown at once, so the record ends with status Reconnecting
    and the countdown as lastError; at the ceiling the reason stays. *)
Theorem failure_reason_overwritten (w : World) (c : Caller) (message : string) :
  let w' := exec (connect_failed c message) w in
  effects w' !! length (effects w)
    = Some (StatusChanged
              (set_lastError (Some (errorMessage message)) (set_status Disconnected (state w)))) ∧
  (reconnectAttempts (state w) < MAX_RECONNECT_ATTEMPTS →
     status (state w') = Reconnecting ∧
     lastError (state w') = Some (countdown (reconnectAttempts (state w))) ∧
     length (effects w') = S (S (length (effects w)))) ∧
  (MAX_RECONNECT_ATTEMPTS ≤ reconnectAttempts (state w) →
     status (state w') = Disconnected ∧
     lastError (state w') = Some (errorMessage message)).
Proof.
  simpl. destruct_world w. split.
  - destruct c; crunch; rewrite <-?app_assoc; by rewrite lookup_app_r, Nat.sub_diag.
  - split; intros Hlt; destruct c; crunch; consts; try lia;
      rewrite ?length_app; simpl; repeat split; (done || lia).
Qed.

Lemma failure_reason_overwritten_witness :
  lastError (state (exec (connect_failed FromElsewhere "HTTP 500") connectedWorld))
    = Some "Reconnecting in 1s..."%string.
Proof.
  destruct (failure_reason_overwritten connectedWorld FromElsewhere "HTTP 500")
    as (_ & H & _).
  destruct H as (_ & H & _); [vm_compute; reflexivity|]. rewrite H. vm_compute; reflexivity.
Defined.

(** ** Where the requests go *)

(** Every request among [l] is addressed to [base]. *)
Definition requestsTo (base : string) (l : list Effect) : Prop :=
  Forall (λ e, match e with
               | Fetch _ url _ _ =>
                   url ∈ [base +:+ "/api/version"; base +:+ "/api/tags";
                          base +:+ "/api/generate"]%string
               | _ => True
               end) l.

(** What [w'] has emitted since [w]. *)
Definition emittedSince (w w' : World) : list Effect :=
  drop (length (effects w)) (effects w').

Definition isUpdateEndpoint (e : Event) : bool :=
  match e with Called_updateEndpoint _ => true | _ => false end.

Lemma step_requests e w w' :
  step e w = Some w' →
  ollamaEndpoint w' = match e with
                      | Called_updateEndpoint endpoint => endpoint
                      | _ => ollamaEndpoint w
                      end ∧
  (∃ l, effects w' = effects w ++ l) ∧
  requestsTo (ollamaEndpoint w') (emittedSince w w').
Proof.
  intros Hs. unfold requestsTo, emittedSince. destruct_world w.
  destruct e as [| | | | | | | | |i r]; simpl in Hs; simplify_option_eq.
  10: match goal with H : resume ?t _ _ = _ |- _ => destruct t end;
      destruct r as [[]|]; simpl in *; simplify_option_eq.
  all: crunch; rewrite <-?app_assoc; simpl;
    (split; [done|]); (split; [by (eexists; reflexivity) || by exists []; rewrite app_nil_r|]);
    rewrite ?drop_app_length, ?drop_all;
    repeat (apply Forall_cons_2;
              [try done; repeat first [apply list_elem_of_here | apply list_elem_of_further]|]);
    apply Forall_nil_2.
Qed.

Lemma run_requests es : ∀ w w',
  run es w = Some w' → forallb (λ e, negb (isUpdateEndpoint e)) es = true →
  ollamaEndpoint w' = ollamaEndpoint w ∧
  (∃ l, effects w' = effects w ++ l) ∧
  requestsTo (ollamaEndpoint w) (emittedSince w w').
Proof.
  induction es as [|e es IH]; simpl; intros w w' Hr Hes.
  - simplify_eq. split; [done|]. split; [by exists []; rewrite app_nil_r|].
    unfold requestsTo, emittedSince. rewrite drop_all. apply Forall_nil_2.
  - destruct (step e w) as [w1|] eqn:Hs; simpl in Hr; [|done].
    apply andb_prop in Hes as [He Hes].
    destruct (step_requests e w w1 Hs) as (Hep1 & (l1 & Hl1) & Hreq1).
    destruct (IH w1 w' Hr Hes) as (Hep & (l & Hl) & Hreq).
    assert (ollamaEndpoint w1 = ollamaEndpoint w) as Heq by (by destruct e).
    rewrite Heq in *. split; [congruence|]. split.
    + exists (l1 ++ l). by rewrite Hl, Hl1, app_assoc.
    + unfold requestsTo, emittedSince in *.
      rewrite Hl, Hl1, <-app_assoc, drop_app_length in *.
      rewrite (app_assoc (effects w) l1 l), <-Hl1, drop_app_length in Hreq.
      by apply Forall_app.
Qed.

Lemma updateEndpoint_effects (w : World) (endpoint : string) :
  effects (exec (updateEndpoint endpoint) w)
    = effects w ++
        [StatusChanged (set_lastError None (set_status Starting
                          (set_reconnectAttempts 0 (state w))));
         Fetch "GET" (endpoint +:+ "/api/version") None 2000].
Proof. destruct_world w. crunch; by rewrite <-app_assoc. Qed.

Lemma updateEndpoint_timeouts (w : World) (endpoint : string) :
  invariant w → timeouts (exec (updateEndpoint endpoint) w) = [].
Proof. intros [_ _ Ht]. destruct_world w. crunch; timer_cases Ht. Qed.

(** X6. updateEndpoint(url) starts a connect() against the new URL at
    once, with the counter at 0 and the pending timer cancelled, and from
    then on every request of the manager goes to the new URL, also those of
    an attempt or health check that was begun against the old one, until
    updateEndpoint is called again. *)
Theorem updateEndpoint_redirects (w : World) (endpoint : string)
    (es : list Event) (w' : World) :
  reachable w →
  run (Called_updateEndpoint endpoint :: es) w = Some w' →
  forallb (λ e, negb (isUpdateEndpoint e)) es = true →
  take 2 (emittedSince w w')
    = [StatusChanged (set_lastError None (set_status Starting
                        (set_reconnectAttempts 0 (state w))));
       Fetch "GET" (endpoint +:+ "/api/version") None 2000] ∧
  timeouts (exec (updateEndpoint endpoint) w) = [] ∧
  ollamaEndpoint w' = endpoint ∧
  requestsTo endpoint (emittedSince w w').
Proof.
  intros Hreach Hr Hes. simpl in Hr.
  pose proof (reachable_invariant w Hreach) as Hinv.
  pose proof (updateEndpoint_effects w endpoint) as Hw1.
  destruct (step_requests (Called_updateEndpoint endpoint) w _ eq_refl)
    as (Hep1 & _ & Hreq1).
  destruct (run_requests es _ w' Hr Hes) as (Hep & (l & Hl) & Hreq).
  rewrite Hep1 in *.
  split.
  { unfold emittedSince. rewrite Hl, Hw1, <-app_assoc, drop_app_length. done. }
  split; [by apply updateEndpoint_timeouts|].
  split; [done|].
  unfold requestsTo, emittedSince in *.
  rewrite Hl, Hw1, <-app_assoc, drop_app_length in *.
  rewrite (app_assoc (effects w) _ l), <-Hw1, drop_app_length in Hreq.
  by apply Forall_app.
Qed.

Lemma updateEndpoint_redirects_witness :
  ∃ w', run [Called_updateEndpoint "http://10.0.0.2:11434";
             Settled 0 (Responded (HttpOk None))] connectedWorld = Some w' ∧
        requestsTo "http://10.0.0.2:11434" (emittedSince connectedWorld w') ∧
        last (effects w') = Some (Fetch "GET" "http://10.0.0.2:11434/api/tags" None 5000).
Proof.
  eexists. split; [vm_compute; reflexivity|]. split; [|vm_compute; reflexivity].
  eapply (updateEndpoint_redirects connectedWorld "http://10.0.0.2:11434"
            [Settled 0 (Responded (HttpOk None))]);
    [apply connectedWorld_reachable | vm_compute; reflexivity | reflexivity].
Defined.




(** ** Teardown *)

Definition awaitedByInitialize (t : Task) : bool :=
  match t with
  | ConnectCheck FromInitialize | ConnectStart FromInitialize
  | ConnectTags FromInitialize _ => true
  | _ => false
  end.

(** The attempts that [initialize()] is still awaiting. *)
Definition initializing (w : World) : nat :=
  length (filter (λ t, awaitedByInitialize t = true) (pending w)).

(** [startHealthMonitoring] runs once: while [initialize()] awaits its
    connect() there is no interval yet, and afterwards the only interval is
    the one [healthCheckInterval] refers to. *)
Record monitoring (w : World) : Prop := {
  mon_once : (initializing w ≤ 1)%nat;
  mon_before : initializing w = 1%nat → intervals w = [];
  mon_interval : intervals w = [] ∨
                 ∃ h, intervals w = [h] ∧ healthCheckInterval w = Some h
}.

Lemma filter_delete_length {A} (P : A → Prop) `{∀ x, Decision (P x)}
    (l : list A) (i : nat) (x : A) :
  l !! i = Some x →
  length (filter P l) = ((if decide (P x) then 1 else 0) + length (filter P (delete i l)))%nat.
Proof.
  revert i. induction l as [|y l IH]; intros i Hi; [done|].
  destruct i as [|i]; simpl in *.
  - simplify_eq. rewrite filter_cons. by destruct (decide (P x)).
  - rewrite !filter_cons.
    destruct (decide (P y)); simpl; rewrite (IH i Hi); destruct (decide (P x)); lia.
Qed.

Lemma filter_awaited_late (late : nat) :
  filter (λ t, awaitedByInitialize t = true) (replicate late LaunchPoll) = [].
Proof. induction late as [|late IH]; [done|]. simpl. by rewrite filter_cons_False. Qed.

Ltac monitor Hp Hone Hzero Hint :=
  unfold initializing in *; simpl in *;
  rewrite ?filter_app, ?length_app, ?filter_cons, ?filter_nil in *; simpl in *;
  split; simpl;
  rewrite ?filter_app, ?length_app, ?filter_cons, ?filter_nil; simpl;
  [ lia
  | intros; first [ apply Hone; lia | lia | done ]
  | first [ exact Hint
          | left; done
          | right; rewrite Hone by lia; simpl; eauto
          | destruct Hint as [-> | (? & -> & ->)]; [by left|]; left; simpl;
            rewrite filter_cons; simpl; by rewrite decide_False by (by intros ?) ] ].

Lemma step_monitoring e w w' : monitoring w → step e w = Some w' → monitoring w'.
Proof.
  intros [Hp Hone Hint] Hs. destruct_world w.
  destruct e as [| | | | | | | | |i r]; simpl in Hs; simplify_option_eq.
  10: {
    match goal with H : _ !! i = Some ?t |- _ =>
      pose proof (filter_delete_length (λ t, awaitedByInitialize t = true) _ i t H) as Hdel
    end.
    unfold initializing in *; simpl in *.
    match goal with H : resume ?t _ _ = _ |- _ => destruct t as [[]|[]|[] ?| | |] end;
      destruct r as [[]|]; simpl in *; simplify_option_eq;
      try match goal with H : (bool * nat)%type |- _ => destruct H as [? late] end;
      crunch; split; simpl; unfold initializing; simpl;
      rewrite ?filter_app, ?length_app, ?filter_cons, ?filter_nil, ?filter_awaited_late;
      simpl;
      first [ lia
            | intros; first [apply Hone; lia | lia]
            | rewrite Hone by lia; simpl; eauto
            | exact Hint ]. }
  all: unfold initializing in *; simpl in *; crunch; split; simpl;
    unfold initializing; simpl;
    rewrite ?filter_app, ?length_app, ?filter_cons, ?filter_nil; simpl;
    first [ lia
          | intros; apply Hone; lia
          | intros Hc; by rewrite (Hone Hc)
          | exact Hint
          | destruct Hint as [-> | (? & -> & ?)]; simplify_eq/=; [by left|]; left;
            rewrite filter_cons; simpl; by rewrite decide_False by (by intros ?)
          | by left ].
Qed.

Lemma construct_monitoring endpoint now : monitoring (construct endpoint now).
Proof. split; simpl; [done | done | by left]. Qed.

Lemma reachable_monitoring w : reachable w → monitoring w.
Proof.
  induction 1 as [|w e w' _ IH Hs]; [apply construct_monitoring|].
  by eapply step_monitoring.
Qed.

(** X8. Teardown cancels the pending reconnect timer and, once
    [initialize()] has started it, the health check interval, and changes
    nothing else; it can be repeated without effect.  It does not stop an
    attempt that is in flight: when that attempt fails below the ceiling a
    new reconnect timer is armed after the teardown. *)
Theorem cleanup_cancels_timers (w : World) :
  reachable w →
  timeouts (exec cleanup w) = [] ∧
  intervals (exec cleanup w) = [] ∧
  state (exec cleanup w) = state w ∧ pending (exec cleanup w) = pending w ∧
  effects (exec cleanup w) = effects w ∧
  exec cleanup (exec cleanup w) = exec cleanup w ∧
  (reconnectAttempts (state w) < MAX_RECONNECT_ATTEMPTS →
     ∀ c message,
       timeouts (exec (connect_failed c message) (exec cleanup w))
         = [(nextHandle w, backoffDelay (reconnectAttempts (state w)))]).
Proof.
  intros Hr. pose proof (reachable_invariant w Hr) as [_ _ Ht].
  pose proof (reachable_monitoring w Hr) as [_ _ Hi].
  destruct_world w.
  split; [crunch; timer_cases Ht|].
  split.
  { destruct Hi as [-> | (h & -> & ->)]; crunch; try done.
    all: rewrite filter_cons; simpl; by rewrite decide_False by (by intros ?). }
  split; [by crunch|]. split; [by crunch|]. split; [by crunch|].
  split.
  { destruct Hi as [-> | (h & -> & ->)]; crunch;
      unfold with_intervals, with_timeouts; simpl;
      destruct Ht as [-> | (h' & d & -> & ?)]; simplify_eq/=;
      rewrite ?filter_handle_single, ?filter_cons, ?filter_nil; simpl;
      rewrite ?decide_False by (by intros ?); done. }
  intros Hlt c message. destruct c; crunch; consts; try lia; timer_cases Ht.
Qed.

Lemma cleanup_cancels_timers_witness :
  timeouts (after failedAttempt) = [(0%nat, 1000)] ∧ intervals (after failedAttempt) = [1%nat] ∧
  timeouts (exec cleanup (after failedAttempt)) = [] ∧
  intervals (exec cleanup (after failedAttempt)) = [].
Proof.
  split; [vm_compute; reflexivity|]. split; [vm_compute; reflexivity|].
  destruct (cleanup_cancels_timers (after failedAttempt) (after_reachable _))
    as (H1 & H2 & _).
  split; [exact H1 | exact H2].
Defined.

(** X9. [startHealthMonitoring] runs once: every reachable state has at
    most one health check interval, the one [healthCheckInterval] refers
    to, however many attempts, reconnects and endpoint changes there were;
    and there is none while [initialize()] still awaits its connect(). *)
Theorem single_health_interval (w : World) :
  reachable w →
  (length (intervals w) ≤ 1)%nat ∧
  (∀ h, h ∈ intervals w → healthCheckInterval w = Some h) ∧
  (initializing w ≤ 1)%nat ∧
  (initializing w = 1%nat → intervals w = []).
Proof.
  intros Hr. destruct (reachable_monitoring w Hr) as [Hp Hone Hint].
  split; [destruct Hint as [-> | (h & -> & _)]; simpl; lia|].
  split; [|done].
  intros h Hin. destruct Hint as [Hnil | (h' & Hone' & Hh)]; rewrite ?Hnil, ?Hone' in Hin.
  - by apply elem_of_nil in Hin.
  - by apply list_elem_of_singleton in Hin as ->.
Qed.

Lemma single_health_interval_witness :
  intervals (after unreachableScript) = [1%nat] ∧
  (length (intervals (after unreachableScript)) ≤ 1)%nat ∧
  intervals (construct localhost 0) = [].
Proof.
  split; [vm_compute; reflexivity|].
  destruct (single_health_interval (after unreachableScript) (after_reachable _)) as (H & _).
  split; [exact H|]. reflexivity.
Defined.

(** * The status bar indicator

    [OllamaStatusBar]: polls /api/tags every five seconds and renders the
    result.  [checkConnection] is cut at its [await]s like the manager's
    methods; the checks in flight are kept with the time they started. *)
Module StatusBar.

(** The three latency marks of the status text. *)
Inductive Mark := Fast | Fair | Slow.

Record StatusBarItem := StatusBarItem_mk {
  text : string;
  tooltip : string;
  backgroundColor : option string;      (* ThemeColor id *)
  color : option string
}.

Record Bar := Bar_mk {
  statusBarItem : StatusBarItem;
  currentModel : string;
  isConnected : bool;
  responseTime : Z;
  now : Z;                              (* Date.now() *)
  checks : list Z                       (* start times of the checks in flight *)
}.

(** The body of an ok response as [checkConnection] reads it:
    [response.json()] rejects, or gives [null], or gives an object whose
    [models] is absent ([None]) or an array.  An element of the array is
    [null] ([None]) or an object, given by its [name], a string (an absent
    name counts as the empty string, which the tests of the code treat
    alike). *)
Inductive Body :=
| NotJson
| Null
| Data (models : option (list (option string))).

(** How the request of a check ends. *)
Inductive Answer :=
| Ok (body : Body)                       (* response.ok *)
| NotOk (status : Z)                     (* !response.ok *)
| Failed (message : string).             (* fetch rejects *)

Section Rendering.

(** The string literal of each mark (three emoji in the source). *)
Variable glyph : Mark → string.

Definition newline : string := String "010"%char EmptyString.

(** [s.split(':')[0]] *)
Fixpoint beforeColon (s : string) : string :=
  match s with
  | EmptyString => EmptyString
  | String c rest => if Ascii.eqb c ":"%char then EmptyString else String c (beforeColon rest)
  end.

Definition markOf (responseTime : Z) : Mark :=
  if bool_decide (responseTime < 100) then Fast
  else if bool_decide (responseTime < 500) then Fair else Slow.

Definition updateStatusBar (connected : bool) (modelCount : Z) (b : Bar) : Bar :=
  let item :=
    if connected then
      let modelDisplay :=
        if bool_decide (currentModel b = "") then "No Model" else beforeColon (currentModel b) in
      let latency := glyph (markOf (responseTime b)) in
      StatusBarItem_mk
        ("$(hubot) Ollama: " +:+ modelDisplay +:+ " " +:+ latency)
        ("Ollama Connected (" +:+ pretty (responseTime b) +:+ "ms)" +:+ newline +:+
         pretty modelCount +:+ " models available" +:+ newline +:+ "Click to switch models")
        None None
    else
      StatusBarItem_mk
        "$(hubot) Ollama: Disconnected"
        ("Ollama is not running" +:+ newline +:+ "Please start Ollama: ollama serve")
        (Some "statusBarItem.errorBackground")
        (Some "statusBarItem.errorForeground") in
  Bar_mk item (currentModel b) (isConnected b) (responseTime b) (now b) (checks b).

(** [checkConnection()] up to [await fetch(...)]. *)
Definition checkConnection (b : Bar) : Bar :=
  Bar_mk (statusBarItem b) (currentModel b) (isConnected b) (responseTime b) (now b)
    (checks b ++ [now b]).

(** The [catch] of [checkConnection()]. *)
Definition checkConnection_failed (b : Bar) : Bar :=
  updateStatusBar false 0
    (Bar_mk (statusBarItem b) (currentModel b) false (responseTime b) (now b) (checks b)).

(** The rest of [checkConnection()], the request having ended with [r].
    [responseTime] and [isConnected] are written as soon as the body has
    been parsed; [data.models] (of [null]) and [models[0].name] (of a
    [null] element) throw after that, into the [catch]. *)
Definition checkConnection_fetched (startTime : Z) (r : Answer) (b : Bar) : Bar :=
  match r with
  | Ok NotJson => checkConnection_failed b
  | Ok body =>
      let b1 := Bar_mk (statusBarItem b) (currentModel b) true (now b - startTime)
                  (now b) (checks b) in
      match body with
      | Data (Some (first :: rest)) =>
          if bool_decide (currentModel b1 = "") then
            match first with
            | Some name =>
                updateStatusBar true (Z.of_nat (length (first :: rest)))
                  (Bar_mk (statusBarItem b1) name (isConnected b1) (responseTime b1)
                     (now b1) (checks b1))
            | None => checkConnection_failed b1
            end
          else updateStatusBar true (Z.of_nat (length (first :: rest))) b1
      | Data _ => updateStatusBar true 0 b1
      | _ => checkConnection_failed b1
      end
  | _ => checkConnection_failed b
  end.

Definition setCurrentModel (model : string) (b : Bar) : Bar :=
  checkConnection
    (Bar_mk (statusBarItem b) model (isConnected b) (responseTime b) (now b) (checks b)).


(** The constructor: the item is created empty and the first check starts. *)
Definition construct (t : Z) : Bar :=
  checkConnection (Bar_mk (StatusBarItem_mk "" "" None None) "" false 0 t []).

Inductive Event :=
| Elapsed (dt : Z)
| IntervalFired                         (* every 5 seconds *)
| Called_setCurrentModel (model : string)
| Fetched (i : nat) (r : Answer).

Definition step (e : Event) (b : Bar) : option Bar :=
  match e with
  | Elapsed dt =>
      if bool_decide (0 ≤ dt)
      then Some (Bar_mk (statusBarItem b) (currentModel b) (isConnected b) (responseTime b)
                   (now b + dt) (checks b))
      else None
  | IntervalFired => Some (checkConnection b)
  | Called_setCurrentModel model => Some (setCurrentModel model b)
  | Fetched i r =>
      startTime ← checks b !! i;
      Some (checkConnection_fetched startTime r
              (Bar_mk (statusBarItem b) (currentModel b) (isConnected b) (responseTime b)
                 (now b) (delete i (checks b))))
  end.

Fixpoint run (es : list Event) (b : Bar) : option Bar :=
  match es with
  | [] => Some b
  | e :: es => b' ← step e b; run es b'
  end.


End Rendering.
End StatusBar.

(** [beforeColon] splits the name at its first colon. *)
Lemma beforeColon_split (s : string) :
  ∃ rest, s = StatusBar.beforeColon s +:+ rest ∧
          (rest = "" ∨ ∃ tail, rest = String ":"%char tail).
Proof.
  induction s as [|c s (rest & Heq & Hrest)]; simpl.
  - exists "". by split; [|left].
  - destruct (Ascii.eqb c ":"%char) eqn:Hc.
    + apply Ascii.eqb_eq in Hc as ->. exists (String ":"%char s). split; [done|]. right. eauto.
    + exists rest. split; [|done]. change (String c s = String c (StatusBar.beforeColon s +:+ rest)).
      by rewrite <-Heq.
Qed.

Lemma beforeColon_no_colon (s : string) (c : ascii) :
  In c (String.list_ascii_of_string (StatusBar.beforeColon s)) → c ≠ ":"%char.
Proof.
  induction s as [|d s IH]; simpl; [done|].
  destruct (Ascii.eqb d ":"%char) eqn:Hd; simpl; [done|].
  intros [<-|Hin]; [|by apply IH]. by apply Ascii.eqb_neq in Hd.
Qed.

Lemma string_app_nil_inv (a b : string) : a +:+ b = "" → a = "".
Proof. by destruct a. Qed.

(** X10. The model shown in the connected status text is the part of the
    model name before its first colon, and "No Model" exactly when no model
    is set: a name that begins with a colon is shown as the empty string.
    The mark is Fast below 100 ms, Fair below 500 ms and Slow from there
    on.  A disconnected bar shows the fixed text with the error colours. *)
Theorem status_text (glyph : StatusBar.Mark → string) (modelCount : Z) (b : StatusBar.Bar) :
  (∃ modelDisplay rest,
     StatusBar.text (StatusBar.statusBarItem (StatusBar.updateStatusBar glyph true modelCount b))
       = "$(hubot) Ollama: " +:+ modelDisplay +:+ " " +:+
         glyph (StatusBar.markOf (StatusBar.responseTime b)) ∧
     (StatusBar.currentModel b = "" → modelDisplay = "No Model") ∧
     (StatusBar.currentModel b ≠ "" →
        StatusBar.currentModel b = modelDisplay +:+ rest ∧
        (rest = "" ∨ ∃ tail, rest = String ":"%char tail) ∧
        (∀ c, In c (String.list_ascii_of_string modelDisplay) → c ≠ ":"%char))) ∧
  (StatusBar.markOf (StatusBar.responseTime b) = StatusBar.Fast ↔
     StatusBar.responseTime b < 100) ∧
  (StatusBar.markOf (StatusBar.responseTime b) = StatusBar.Slow ↔
     500 ≤ StatusBar.responseTime b) ∧
  StatusBar.statusBarItem (StatusBar.updateStatusBar glyph false modelCount b)
    = StatusBar.StatusBarItem_mk "$(hubot) Ollama: Disconnected"
        ("Ollama is not running" +:+ StatusBar.newline +:+ "Please start Ollama: ollama serve")
        (Some "statusBarItem.errorBackground") (Some "statusBarItem.errorForeground").
Proof.
  split; [|split; [|split; [|done]]].
  - destruct (beforeColon_split (StatusBar.currentModel b)) as (rest & Heq & Hrest).
    unfold StatusBar.updateStatusBar. simpl. case_bool_decide as Hm.
    + exists "No Model", "". split; [done|]. split; [done|]. done.
    + exists (StatusBar.beforeColon (StatusBar.currentModel b)), rest.
      split; [done|]. split; [done|]. intros _. split; [done|]. split; [done|].
      apply beforeColon_no_colon.
  - unfold StatusBar.markOf. repeat case_bool_decide; split; (done || lia).
  - unfold StatusBar.markOf. repeat case_bool_decide; split; (done || lia).
Qed.








(** * The model management commands

    [OllamaCommands]: the parts that compute (the size shown beside a
    model, the progress of a pull, the figures of a benchmark).  The quick
    picks and messages around them belong to the editor. *)
Module Commands.

Section FormatSize.

(** [parseInt(sizeStr)]; [None] is NaN. *)
Variable parseInt : string → option Z.

Definition units : list string := ["B"; "KB"; "MB"; "GB"; "TB"]%string.

(** The loop [while (formattedSize >= 1024 && unitIndex < units.length - 1)].
    [formattedSize] is [size / divisor]: dividing a double by 1024 is exact,
    so for [|size| < 2^53] the quotient is this rational. *)
Fixpoint scale (fuel : nat) (size divisor : Z) (unitIndex : nat) : Z * nat :=
  match fuel with
  | O => (divisor, unitIndex)
  | S fuel =>
      if bool_decide (1024 * divisor ≤ size) &&
         bool_decide (unitIndex < length units - 1)%nat
      then scale fuel size (1024 * divisor) (S unitIndex)
      else (divisor, unitIndex)
  end.

(** The number [n] of tenths that [(num / den).toFixed(1)] prints: the
    nearest to [|num / den|], the larger one of two equally near. *)
Definition tenths (num den : Z) : Z := (20 * Z.abs num + den) `div` (2 * den).

Definition toFixed1 (num den : Z) : string :=
  (if bool_decide (num < 0) then "-" else "") +:+
  pretty (tenths num den `div` 10) +:+ "." +:+ pretty (tenths num den `mod` 10).

Definition formatSize (sizeStr : string) : string :=
  match parseInt sizeStr with
  | None => sizeStr
  | Some size =>
      let '(divisor, unitIndex) := scale (length units) size 1 0 in
      toFixed1 size divisor +:+ " " +:+ default "undefined" (units !! unitIndex)
  end.

End FormatSize.
End Commands.

Lemma scale_spec (fuel : nat) (size : Z) (k : nat) :
  (k ≤ 4)%nat → (4 - k ≤ fuel)%nat → (k = 0%nat ∨ 1024 ^ Z.of_nat k ≤ size) →
  ∃ k' : nat,
    Commands.scale fuel size (1024 ^ Z.of_nat k) k = (1024 ^ Z.of_nat k', k') ∧
    (k ≤ k' ≤ 4)%nat ∧
    (k' = 0%nat ∨ 1024 ^ Z.of_nat k' ≤ size) ∧
    ((k' < 4)%nat → size < 1024 * 1024 ^ Z.of_nat k').
Proof.
  revert k. induction fuel as [|fuel IH]; intros k Hk Hfuel Hlow; simpl.
  - exists k. split; [done|]. split; [lia|]. split; [done|]. lia.
  - case_bool_decide as Hsize; simpl.
    + case_bool_decide as Hidx; simpl.
      * replace (1024 * 1024 ^ Z.of_nat k) with (1024 ^ Z.of_nat (S k)) in *
          by (rewrite Nat2Z.inj_succ, Z.pow_succ_r; lia).
        destruct (IH (S k)) as (k' & Heq & Hle & Hlow' & Hup); [lia | lia | by right |].
        exists k'. split; [done|]. split; [lia|]. done.
      * exists k. split; [done|]. split; [lia|]. split; [done|]. lia.
    + exists k. split; [done|]. split; [lia|]. split; [done|]. lia.
Qed.

Lemma tenths_nearest (num den : Z) :
  0 < den →
  -den ≤ 2 * (10 * Z.abs num - Commands.tenths num den * den) < den.
Proof.
  intros Hden. unfold Commands.tenths.
  pose proof (Z.div_mod (20 * Z.abs num + den) (2 * den) ltac:(lia)) as Hdm.
  pose proof (Z.mod_pos_bound (20 * Z.abs num + den) (2 * den) ltac:(lia)) as Hb.
  nia.
Qed.

(** X12. formatSize returns its argument unchanged when it is not a number.
    For a size from 0 up (below 2^53, where doubles are exact) it picks the
    unit 1024^k with k the largest of 0..4 for which 1024^k <= size (B
    below 1024, TB from 1024^4 on without limit)
    and prints size / 1024^k rounded to the nearest tenth, the upper one of
    two equally near.  So the number printed is below 1024 except for
    rounding: it can read 1024.0, never more, unless the unit is TB.  The
    five loop turns the model allows are never used up: any larger bound
    gives the same result. *)
Theorem formatSize_unit (parseInt : string → option Z) (sizeStr : string) :
  (parseInt sizeStr = None → Commands.formatSize parseInt sizeStr = sizeStr) ∧
  (∀ size, parseInt sizeStr = Some size → 0 ≤ size < 2 ^ 53 →
     ∃ (k : nat) (unit : string) (n : Z),
       Commands.units !! k = Some unit ∧
       (k = 0%nat ∨ 1024 ^ Z.of_nat k ≤ size) ∧
       ((k < 4)%nat → size < 1024 ^ Z.of_nat (S k)) ∧
       (∀ fuel, (4 ≤ fuel)%nat →
          Commands.scale fuel size 1 0 = (1024 ^ Z.of_nat k, k)) ∧
       - 1024 ^ Z.of_nat k ≤ 2 * (10 * size - n * 1024 ^ Z.of_nat k) < 1024 ^ Z.of_nat k ∧
       ((k < 4)%nat → n ≤ 10240) ∧
       Commands.formatSize parseInt sizeStr
         = (pretty (n `div` 10) +:+ "." +:+ pretty (n `mod` 10)) +:+ " " +:+ unit).
Proof.
  split.
  - intros Hnan. unfold Commands.formatSize. by rewrite Hnan.
  - intros size Hparse [Hsize Hbig].
    destruct (scale_spec 5 size 0 ltac:(lia) ltac:(lia) ltac:(by left))
      as (k & Heq & Hle & Hlow & Hup).
    change (1024 ^ Z.of_nat 0) with 1 in Heq.
    assert (0 < 1024 ^ Z.of_nat k) as Hpos by (apply Z.pow_pos_nonneg; lia).
    assert (is_Some (Commands.units !! k)) as [unit Hunit].
    { apply lookup_lt_is_Some. simpl. lia. }
    exists k, unit, (Commands.tenths size (1024 ^ Z.of_nat k)).
    split; [done|]. split; [done|].
    split. { intros Hk. rewrite Nat2Z.inj_succ, Z.pow_succ_r by lia. by apply Hup. }
    split.
    { intros fuel Hfuel.
      destruct (scale_spec fuel size 0 ltac:(lia) ltac:(lia) ltac:(by left))
        as (k2 & Heq2 & Hle2 & Hlow2 & Hup2).
      change (1024 ^ Z.of_nat 0) with 1 in Heq2. rewrite Heq2.
      assert (k2 = k) as ->; [|done].
      destruct (decide (k2 = k)) as [|Hne]; [done|]. exfalso.
      destruct (decide (k2 < k)%nat).
      - destruct Hlow as [->|Hlow]; [lia|]. specialize (Hup2 ltac:(lia)).
        assert (1024 ^ Z.of_nat (S k2) ≤ 1024 ^ Z.of_nat k)
          by (apply Z.pow_le_mono_r; lia).
        rewrite Nat2Z.inj_succ, Z.pow_succ_r in * by lia. lia.
      - destruct Hlow2 as [->|Hlow2]; [lia|]. specialize (Hup ltac:(lia)).
        assert (1024 ^ Z.of_nat (S k) ≤ 1024 ^ Z.of_nat k2)
          by (apply Z.pow_le_mono_r; lia).
        rewrite Nat2Z.inj_succ, Z.pow_succ_r in * by lia. lia. }
    pose proof (tenths_nearest size (1024 ^ Z.of_nat k) Hpos) as Hn.
    rewrite Z.abs_eq in Hn by done.
    split; [done|]. split.
    { intros Hk. specialize (Hup Hk). nia. }
    unfold Commands.formatSize. rewrite Hparse.
    change (length Commands.units) with 5%nat. rewrite Heq, Hunit.
    unfold Commands.toFixed1. rewrite bool_decide_eq_false_2 by lia. done.
Qed.

Lemma formatSize_unit_witness :
  Commands.formatSize (λ _, Some 1048575) "1048575" = "1024.0 KB"%string ∧
  Commands.formatSize (λ _, Some 1536) "1536" = "1.5 KB"%string ∧
  Commands.formatSize (λ _, Some (5 * 1024 ^ 5)) "5629499534213120" = "5120.0 TB"%string ∧
  ∃ (k : nat) (n : Z),
    Commands.scale 4 1048575 1 0 = (1024 ^ Z.of_nat k, k) ∧ n ≤ 10240 ∧
    - 1024 ^ Z.of_nat k ≤ 2 * (10 * 1048575 - n * 1024 ^ Z.of_nat k) < 1024 ^ Z.of_nat k.
Proof.
  split; [vm_compute; reflexivity|]. split; [vm_compute; reflexivity|].
  split; [vm_compute; reflexivity|].
  destruct (formatSize_unit (λ _, Some 1048575) "1048575") as [_ H].
  destruct (H 1048575 eq_refl ltac:(lia)) as (k & unit & n & _ & Hlow & Hup & Hfuel & Hn & Hmax & _).
  assert (k = 1%nat) as ->.
  { specialize (Hfuel 4%nat ltac:(lia)). vm_compute in Hfuel.
    injection Hfuel as _ Hk. done. }
  exists 1%nat, n. split; [vm_compute; reflexivity|]. split; [apply Hmax; lia | exact Hn].
Defined.

(** ** Streams of JSON lines

    A pull and a benchmark read the response body chunk by chunk.  A chunk
    is given here by its lines that are not blank, each as [JSON.parse]
    returns it ([None]: not JSON, skipped by the [catch]). *)
Module Streams.

Inductive Read (Line : Type) :=
| Chunk (lines : list (option Line))
| Done
| ReadFailed (message : string).
Arguments Chunk {Line} lines.
Arguments Done {Line}.
Arguments ReadFailed {Line} message.

Inductive Outcome := Pending | Succeeded | Failed (message : string).

(** A line of /api/pull; a field that is absent counts as [""] or [0], which
    the tests of the code treat alike. *)
Record PullLine := PullLine_mk {
  p_status : string;
  p_completed : Z;
  p_total : Z
}.

(** [progress.report({ increment, message })] *)
Record Report := Report_mk {
  increment : option Z;
  message : string
}.

Section Pull.

(** [Math.round((completed / total) * 100)] *)
Variable percentOf : Z → Z → Z.

Definition pullLine (line : option PullLine) (acc : Z * list Report) : Z * list Report :=
  let '(lastPercent, reports) := acc in
  match line with
  | None => acc
  | Some data =>
      if bool_decide (p_status data ≠ "") then
        if bool_decide (p_completed data ≠ 0) && bool_decide (p_total data ≠ 0) then
          let percent := percentOf (p_completed data) (p_total data) in
          if bool_decide (lastPercent < percent) then
            (percent,
             reports ++ [Report_mk (Some (percent - lastPercent))
                           (p_status data +:+ " (" +:+ pretty percent +:+ "%)")])
          else acc
        else (lastPercent, reports ++ [Report_mk None (p_status data)])
      else acc
  end.

(** The [while (true)] loop: before every read the cancellation token is
    looked at. *)
Fixpoint pullLoop (stream : list (bool * Read PullLine)) (acc : Z * list Report)
    : Z * list Report * Outcome :=
  match stream with
  | [] => (acc, Pending)
  | (isCancellationRequested, read) :: stream =>
      if isCancellationRequested then (acc, Failed "Cancelled")
      else match read with
           | Done => (acc, Succeeded)
           | ReadFailed message => (acc, Failed message)
           | Chunk lines => pullLoop stream (foldl (λ a l, pullLine l a) acc lines)
           end
  end.

(** What [pullModelWithProgress] leaves behind: the reports and the message
    shown ([inl]: information, [inr]: error).  [response] is the message of
    the error when [fetch] rejects, else whether the response is ok and
    whether it has a body. *)
Definition pullModelWithProgress (modelName : string)
    (response : string + bool * bool) (stream : list (bool * Read PullLine))
    : list Report * option (string + string) :=
  let finish (o : Outcome) : option (string + string) :=
    match o with
    | Pending => None
    | Succeeded => Some (inl ("Successfully pulled " +:+ modelName))
    | Failed message =>
        if bool_decide (message = "Cancelled") then None
        else Some (inr ("Failed to pull model: " +:+ message))
    end in
  match response with
  | inl message => ([], finish (Failed message))
  | inr (ok, hasBody) =>
      if hasBody then
        let '(_, reports, outcome) := pullLoop stream (0, []) in (reports, finish outcome)
      else ([], finish (Failed "No response body"))
  end.

End Pull.

(** A line of /api/generate. *)
Record TokenLine := TokenLine_mk { t_response : string }.

Record Benchmark := Benchmark_mk {
  response : string;
  firstTokenMs : Z;
  totalMs : Z;
  tokenCount : Z
}.

(** The figures of [performBenchmark] that are exact ([tokensPerSecond] and
    [memoryUsage] are floating point).  Each read, and each line that
    parses, comes with what [Date.now()] gives when it is handled; a
    failure comes as the text of the error
    ([`${error}`]), and [response] is that text when [fetch] rejects, else
    whether the response has a body. *)
Definition tokenLine (startTime : Z) (line : option (Z * TokenLine))
    (acc : string * Z * Z) : string * Z * Z :=
  let '(fullResponse, firstTokenTime, count) := acc in
  match line with
  | None => acc
  | Some (now, data) =>
      if bool_decide (t_response data ≠ "") then
        (fullResponse +:+ t_response data,
         (if bool_decide (firstTokenTime = 0) then now - startTime else firstTokenTime),
         count + 1)
      else acc
  end.

Fixpoint benchLoop (startTime : Z) (stream : list (Z * Read (Z * TokenLine)))
    (acc : string * Z * Z) : option (string + Benchmark) :=
  match stream with
  | [] => None
  | (now, read) :: stream =>
      match read with
      | Done =>
          let '(fullResponse, firstTokenTime, count) := acc in
          Some (inr (Benchmark_mk fullResponse firstTokenTime (now - startTime) count))
      | ReadFailed error => Some (inl ("Benchmark failed: " +:+ error))
      | Chunk lines => benchLoop startTime stream (foldl (λ a l, tokenLine startTime l a) acc lines)
      end
  end.

Definition performBenchmark (startTime : Z) (response : string + bool)
    (stream : list (Z * Read (Z * TokenLine))) : option (string + Benchmark) :=
  match response with
  | inl error => Some (inl ("Benchmark failed: " +:+ error))
  | inr hasBody =>
      if hasBody then benchLoop startTime stream ("", 0, 0)
      else Some (inl "Benchmark failed: Error: No response body")
  end.

End Streams.

Definition increments (reports : list Streams.Report) : list Z :=
  omap Streams.increment reports.

Definition total (l : list Z) : Z := foldr Z.add 0 l.

Lemma total_app l1 l2 : total (l1 ++ l2) = total l1 + total l2.
Proof. unfold total. induction l1 as [|x l1 IH]; simpl; lia. Qed.

Lemma pullLine_progress percentOf line last reports :
  let acc := Streams.pullLine percentOf line (last, reports) in
  last ≤ acc.1 ∧
  ∃ new, acc.2 = reports ++ new ∧ Forall (λ i, 0 < i) (increments new) ∧
         total (increments new) = acc.1 - last.
Proof.
  simpl. destruct line as [data|]; simpl.
  2: { split; [done|]. exists []. rewrite app_nil_r. repeat split; [constructor | simpl; lia]. }
  repeat case_bool_decide; simpl; (split; [lia|]);
    first [ exists []; rewrite app_nil_r; split; [done|]; split; [constructor | simpl; lia]
          | eexists [_]; split; [done|]; split; [repeat constructor; lia | simpl; lia] ].
Qed.

Lemma foldl_step {A B} (f : A → B → A) (a : A) (x : B) (l : list B) :
  foldl f a (x :: l) = foldl f (f a x) l.
Proof. reflexivity. Qed.

Lemma pullLines_progress percentOf lines : ∀ last reports,
  let acc := foldl (λ a l, Streams.pullLine percentOf l a) (last, reports) lines in
  last ≤ acc.1 ∧
  ∃ new, acc.2 = reports ++ new ∧ Forall (λ i, 0 < i) (increments new) ∧
         total (increments new) = acc.1 - last.
Proof.
  induction lines as [|line lines IH]; intros last reports.
  - simpl. split; [done|]. exists []. rewrite app_nil_r.
    split; [done|]. split; [constructor | simpl; lia].
  - pose proof (pullLine_progress percentOf line last reports)
      as [Hle (new1 & Heq1 & Hpos1 & Hsum1)].
    rewrite foldl_step.
    destruct (Streams.pullLine percentOf line (last, reports)) as [last1 reports1].
    simpl in Hle, Heq1, Hsum1. subst reports1.
    destruct (IH last1 (reports ++ new1)) as [Hle2 (new2 & Heq2 & Hpos2 & Hsum2)].
    split; [lia|]. exists (new1 ++ new2). split; [by rewrite Heq2, app_assoc|].
    unfold increments in *. rewrite omap_app. split; [by apply Forall_app|].
    rewrite total_app. lia.
Qed.

Lemma pullLoop_chunks percentOf chunks : ∀ acc rest,
  Streams.pullLoop percentOf (map (λ ls, (false, Streams.Chunk ls)) chunks ++ rest) acc
    = Streams.pullLoop percentOf rest
        (foldl (λ a l, Streams.pullLine percentOf l a) acc (concat chunks)).
Proof.
  induction chunks as [|ls chunks IH]; intros acc rest; simpl; [done|].
  by rewrite IH, foldl_app.
Qed.

(** X13. A pull reports progress only when the percentage rises: every
    increment reported is positive and the increments add up to the last
    percentage reported, however the lines are spread over the chunks;
    lines that are not JSON or carry no status are skipped.  When the stream
    ends, "Successfully pulled" is shown whatever the lines said and whether
    or not the response was ok; a cancellation seen before a read shows
    nothing and leaves the rest unread; a failed read shows its message,
    unless that message is "Cancelled". *)
Theorem pull_progress (percentOf : Z → Z → Z) (modelName : string) (ok : bool)
    (chunks : list (list (option Streams.PullLine)))
    (rest : list (bool * Streams.Read Streams.PullLine)) :
  let stream := map (λ ls, (false, Streams.Chunk ls)) chunks in
  let acc := foldl (λ a l, Streams.pullLine percentOf l a) (0, []) (concat chunks) in
  Forall (λ i, 0 < i) (increments acc.2) ∧
  total (increments acc.2) = acc.1 ∧
  Streams.pullModelWithProgress percentOf modelName (inr (ok, true))
    (stream ++ (false, Streams.Done) :: rest)
    = (acc.2, Some (inl ("Successfully pulled " +:+ modelName))) ∧
  (∀ read,
     Streams.pullModelWithProgress percentOf modelName (inr (ok, true))
       (stream ++ (true, read) :: rest) = (acc.2, None)) ∧
  (∀ message,
     Streams.pullModelWithProgress percentOf modelName (inr (ok, true))
       (stream ++ (false, Streams.ReadFailed message) :: rest)
       = (acc.2, if bool_decide (message = "Cancelled") then None
                 else Some (inr ("Failed to pull model: " +:+ message)))) ∧
  Streams.pullModelWithProgress percentOf modelName (inr (ok, true)) stream = (acc.2, None) ∧
  Streams.pullModelWithProgress percentOf modelName (inr (ok, false)) (stream ++ rest)
    = ([], Some (inr "Failed to pull model: No response body")).
Proof.
  simpl.
  pose proof (pullLines_progress percentOf (concat chunks) 0 []) as [Hle (new & Heq & Hpos & Hsum)].
  simpl in *. rewrite Heq. split; [done|]. split; [lia|].
  unfold Streams.pullModelWithProgress.
  split; [|split; [|split; [|split]]]; intros; try done.
  - rewrite pullLoop_chunks. simpl.
    destruct (foldl _ _ _) as [last reports]. simpl in *. by subst.
  - rewrite pullLoop_chunks. simpl.
    destruct (foldl _ _ _) as [last reports]. simpl in *. by subst.
  - rewrite pullLoop_chunks. simpl.
    destruct (foldl _ _ _) as [last reports]. simpl in *. by subst.
  - rewrite <-(app_nil_r (map _ chunks)), pullLoop_chunks. simpl.
    destruct (foldl _ _ _) as [last reports]. simpl in *. by subst.
Qed.

(** A pull in two chunks, one line being cut at the chunk boundary; the
    percentage is rounded to the nearest integer here. *)
Definition examplePull : list (list (option Streams.PullLine)) :=
  [[Some (Streams.PullLine_mk "pulling manifest" 0 0);
    Some (Streams.PullLine_mk "downloading" 10 40); None];
   [None; Some (Streams.PullLine_mk "downloading" 10 40);
    Some (Streams.PullLine_mk "downloading" 30 40);
    Some (Streams.PullLine_mk "" 40 40)]].

Lemma pull_progress_witness :
  Streams.pullModelWithProgress (λ c t, (200 * c + t) `div` (2 * t)) "qwen" (inr (false, true))
    (map (λ ls, (false, Streams.Chunk ls)) examplePull ++ [(false, Streams.Done)])
  = ([Streams.Report_mk None "pulling manifest";
      Streams.Report_mk (Some 25) "downloading (25%)";
      Streams.Report_mk (Some 50) "downloading (75%)"],
     Some (inl "Successfully pulled qwen"%string)).
Proof.
  destruct (pull_progress (λ c t, (200 * c + t) `div` (2 * t)) "qwen" false examplePull [])
    as (_ & _ & H & _).
  rewrite H. vm_compute; reflexivity.
Defined.

(** The tokens of a stream: the lines whose response is not empty, each
    with the clock at which it is handled. *)
Definition tokensOf (chunks : list (Z * list (option (Z * Streams.TokenLine))))
    : list (Z * string) :=
  chunks ≫= λ c,
    omap (λ line, match line with
                  | Some (now, data) =>
                      if bool_decide (Streams.t_response data ≠ "")
                      then Some (now, Streams.t_response data) else None
                  | None => None
                  end) c.2.

(** The clock minus the start at the first token for which that is not 0. *)
Definition firstToken (startTime : Z) (tokens : list (Z * string)) : Z :=
  default 0 (head (filter (λ ms, ms ≠ 0) (map (λ t, t.1 - startTime) tokens))).

Definition accumulate (startTime : Z) (acc : string * Z * Z) (tokens : list (Z * string))
    : string * Z * Z :=
  (foldl (λ s t, s +:+ t.2) acc.1.1 tokens,
   (if bool_decide (acc.1.2 = 0) then firstToken startTime tokens else acc.1.2),
   acc.2 + Z.of_nat (length tokens)).

Lemma accumulate_nil startTime acc : accumulate startTime acc [] = acc.
Proof.
  destruct acc as [[full first] count]. unfold accumulate, firstToken.
  cbn [fst snd foldl length map filter head default].
  rewrite Z.add_0_r. by case_bool_decide; subst.
Qed.

Lemma accumulate_cons startTime full first count now text tokens :
  accumulate startTime
    (full +:+ text, (if bool_decide (first = 0) then now - startTime else first), count + 1)
    tokens
  = accumulate startTime (full, first, count) ((now, text) :: tokens).
Proof.
  unfold accumulate, firstToken. cbn [fst snd foldl length map].
  f_equal; [f_equal|lia].
  rewrite filter_cons. cbn [fst].
  destruct (decide (first = 0)) as [Hfirst|Hfirst].
  - rewrite (bool_decide_eq_true_2 (first = 0)) by done.
    destruct (decide (now - startTime = 0)) as [Hms|Hms].
    + rewrite bool_decide_eq_true_2 by done. by rewrite decide_False by tauto.
    + rewrite bool_decide_eq_false_2 by done. by rewrite decide_True by done.
  - rewrite (bool_decide_eq_false_2 (first = 0)) by done.
    by rewrite bool_decide_eq_false_2.
Qed.

Lemma tokenLines_accumulate startTime now lines : ∀ acc,
  foldl (λ a l, Streams.tokenLine startTime l a) acc lines
    = accumulate startTime acc (tokensOf [(now, lines)]).
Proof.
  unfold tokensOf. cbn [mbind list_bind snd]. rewrite app_nil_r.
  induction lines as [|line lines IH]; intros [[full first] count].
  - by rewrite accumulate_nil.
  - rewrite foldl_step. cbn [omap list_omap].
    destruct line as [[t data]|]; cbn [Streams.tokenLine]; [|apply IH].
    case_bool_decide as Hresp; [|apply IH].
    rewrite IH. apply accumulate_cons.
Qed.

Lemma accumulate_app startTime acc t1 t2 :
  accumulate startTime (accumulate startTime acc t1) t2 = accumulate startTime acc (t1 ++ t2).
Proof.
  revert acc. induction t1 as [|[now text] t1 IH]; intros [[full first] count].
  - by rewrite accumulate_nil.
  - rewrite <-app_comm_cons, <-!accumulate_cons. apply IH.
Qed.

Lemma benchLoop_chunks startTime chunks : ∀ acc rest,
  Streams.benchLoop startTime (map (λ c, (c.1, Streams.Chunk c.2)) chunks ++ rest) acc
    = Streams.benchLoop startTime rest (accumulate startTime acc (tokensOf chunks)).
Proof.
  induction chunks as [|[now lines] chunks IH]; intros acc rest.
  - cbn [map app]. unfold tokensOf. cbn [mbind list_bind]. by rewrite accumulate_nil.
  - cbn [map app fst snd Streams.benchLoop].
    rewrite IH, (tokenLines_accumulate _ now), accumulate_app. do 2 f_equal.
    unfold tokensOf. cbn [mbind list_bind snd]. by rewrite app_nil_r.
Qed.

(** X14. A benchmark counts the lines of the stream whose response is not
    empty, in whatever chunks they arrive, and joins their responses in
    order; lines that are not JSON or have no response are skipped.  The
    first token latency is the time from the start to the first token for
    which that time is not 0 (a token seen at the very millisecond of the
    start does not count), and 0 when there is none.  A read that fails
    gives "Benchmark failed" and no figures; nothing is returned before the
    stream has ended. *)
Theorem benchmark_figures (startTime : Z)
    (chunks : list (Z * list (option (Z * Streams.TokenLine)))) (now : Z)
    (rest : list (Z * Streams.Read (Z * Streams.TokenLine))) :
  let stream := map (λ c, (c.1, Streams.Chunk c.2)) chunks in
  Streams.performBenchmark startTime (inr true) (stream ++ (now, Streams.Done) :: rest)
    = Some (inr (Streams.Benchmark_mk
                   (foldl (λ s t, s +:+ t.2) "" (tokensOf chunks))
                   (firstToken startTime (tokensOf chunks))
                   (now - startTime)
                   (Z.of_nat (length (tokensOf chunks))))) ∧
  (∀ error,
     Streams.performBenchmark startTime (inr true)
       (stream ++ (now, Streams.ReadFailed error) :: rest)
       = Some (inl ("Benchmark failed: " +:+ error))) ∧
  Streams.performBenchmark startTime (inr true) stream = None.
Proof.
  cbn zeta. unfold Streams.performBenchmark.
  split; [|split]; intros; rewrite ?benchLoop_chunks.
  - done.
  - done.
  - rewrite <-(app_nil_r (map _ chunks)), benchLoop_chunks. done.
Qed.

Lemma benchmark_figures_witness :
  Streams.performBenchmark 1000 (inr true)
    [(1000, Streams.Chunk [Some (1000, Streams.TokenLine_mk "def")]);
     (1350, Streams.Chunk [None; Some (1350, Streams.TokenLine_mk " f");
                           Some (1351, Streams.TokenLine_mk "")]);
     (1400, Streams.Chunk [Some (1400, Streams.TokenLine_mk "():")]);
     (1420, Streams.Done)]
  = Some (inr (Streams.Benchmark_mk "def f():" 350 420 3)).
Proof.
  destruct (benchmark_figures 1000
              [(1000, [Some (1000, Streams.TokenLine_mk "def")]);
               (1350, [None; Some (1350, Streams.TokenLine_mk " f");
                       Some (1351, Streams.TokenLine_mk "")]);
               (1400, [Some (1400, Streams.TokenLine_mk "():")])] 1420 []) as [H _].
  cbn zeta in H. cbn [map app fst snd] in H. rewrite H. vm_compute; reflexivity.
Defined.

(** ** Chat participant ids (platform/chat/common/chatAgents.ts) *)
Module ChatAgents.

Definition CHAT_PARTICIPANT_ID_PREFIX : string := "ollama.code.".

Definition getChatParticipantIdFromName (name : string) : string :=
  CHAT_PARTICIPANT_ID_PREFIX +:+ name.

(** [s] without [prefix] at its start, if it starts with it. *)
Fixpoint stripPrefix (prefix s : string) : option string :=
  match prefix, s with
  | EmptyString, _ => Some s
  | String c prefix, String d s =>
      if bool_decide (c = d) then stripPrefix prefix s else None
  | String _ _, EmptyString => None
  end.

(** [id.replace(/^ollama\.code\./, '')]: the pattern is anchored at the
    start and has no [g] flag, so one leading occurrence is removed. *)
Definition getChatParticipantNameFromId (id : string) : string :=
  default id (stripPrefix "ollama.code." id).

End ChatAgents.

(** ** The stub token (platform/authentication/vscode-node/ollamaStubTokenManager.ts) *)
Module StubToken.

(** The fields of the token that the manager computes; the others are
    literals. *)
Record ExtendedTokenInfo := ExtendedTokenInfo_mk {
  token : string;
  expires_at : Z;
  refresh_in : Z
}.

Record Manager := Manager_mk {
  _stubToken : option ExtendedTokenInfo;
  logged : list string
}.

Definition construct : Manager := Manager_mk None [].

Definition _createStubToken (nowSeconds : Z) : ExtendedTokenInfo :=
  ExtendedTokenInfo_mk "ollama-local-token" (nowSeconds + 365 * 24 * 60 * 60) (365 * 24 * 60 * 60).

(** The token that the returned [CopilotToken] wraps. *)
Definition getCopilotToken (nowSeconds : Z) (_force : option bool) (m : Manager)
    : ExtendedTokenInfo * Manager :=
  match _stubToken m with
  | None =>
      let t := _createStubToken nowSeconds in
      (t, Manager_mk (Some t)
            (logged m ++ ["Ollama Code: Created stub token for local Ollama access"]))
  | Some t => (t, m)
  end.

(** Calls in a row, each at its clock and with its [_force]. *)
Fixpoint calls (cs : list (Z * option bool)) (m : Manager)
    : list ExtendedTokenInfo * Manager :=
  match cs with
  | [] => ([], m)
  | (nowSeconds, force) :: cs =>
      let '(t, m) := getCopilotToken nowSeconds force m in
      let '(ts, m) := calls cs m in
      (t :: ts, m)
  end.

End StubToken.

(** ** The language model provider (extension/byok/vscode-node/byokContribution.ts) *)
Module Byok.

Section Provider.

(** [OllamaLMProvider.providerName.toLowerCase()] *)
Variable providerKey : string.

(** An [OllamaLMProvider] is given by the endpoint it is created with. *)
Record Contrib := Contrib_mk {
  _providers : list (string * string);
  _byokProvidersRegistered : bool;
  _store : list (string * string);
  logged : list string
}.

(** [Map.prototype.set]: a key that is there keeps its place. *)
Fixpoint mapSet (key value : string) (m : list (string * string)) : list (string * string) :=
  match m with
  | [] => [(key, value)]
  | (k, v) :: m => if bool_decide (k = key) then (key, value) :: m else (k, v) :: mapSet key value m
  end.

(** [config] is what [getConfig(ConfigKey.OllamaEndpoint)] gives at the
    time of the call. *)
Definition _authChange (config : option string) (c : Contrib) : Contrib :=
  if negb (_byokProvidersRegistered c) then
    let ollamaEndpoint :=
      match config with
      | Some url => if bool_decide (url = "") then "http://localhost:11434" else url
      | None => "http://localhost:11434"
      end in
    let providers := mapSet providerKey ollamaEndpoint (_providers c) in
    Contrib_mk providers true (_store c ++ providers)
      (logged c ++ ["Ollama Code: Registered Ollama provider at " +:+ ollamaEndpoint])
  else c.

Definition construct (config : option string) : Contrib :=
  _authChange config (Contrib_mk [] false [] []).

(** [onDidAuthenticationChange] firing, once for each element. *)
Definition authChanges (configs : list (option string)) (c : Contrib) : Contrib :=
  foldl (λ c config, _authChange config c) c configs.

End Provider.

End Byok.

Lemma append_cons c prefix s : String c prefix +:+ s = String c (prefix +:+ s).
Proof. reflexivity. Qed.

Lemma stripPrefix_app prefix s : ChatAgents.stripPrefix prefix (prefix +:+ s) = Some s.
Proof.
  induction prefix as [|c prefix IH]; [by destruct s|].
  rewrite append_cons. cbn [ChatAgents.stripPrefix].
  by rewrite bool_decide_eq_true_2.
Qed.

Lemma stripPrefix_Some prefix s r : ChatAgents.stripPrefix prefix s = Some r → s = prefix +:+ r.
Proof.
  revert s. induction prefix as [|c prefix IH]; intros [|d s];
    rewrite ?append_cons; cbn [ChatAgents.stripPrefix];
    try (change ("" +:+ r) with r); try congruence.
  case_bool_decide; [|done]. intros ?%IH. congruence.
Qed.

Lemma append_length s1 s2 :
  String.length (s1 +:+ s2) = (String.length s1 + String.length s2)%nat.
Proof.
  induction s1 as [|c s1 IH]; [done|].
  rewrite append_cons. cbn [String.length]. by rewrite IH.
Qed.

Lemma append_longer c prefix s : String c prefix +:+ s ≠ s.
Proof.
  intros H. apply (f_equal String.length) in H.
  rewrite append_length in H. cbn [String.length] in H. lia.
Qed.

(** X15. A participant's name survives the round trip through its id,
    also when the name itself starts with "ollama.code." (the prefix is
    removed once).  The way back is not one to one: an id is changed by
    [getChatParticipantNameFromId] exactly when it starts with the
    prefix, so "ollama.code.x" and "x" name the same participant, and an id
    comes back from its name exactly when it has the prefix. *)
Theorem participant_name_round_trip (name id : string) :
  ChatAgents.getChatParticipantNameFromId (ChatAgents.getChatParticipantIdFromName name) = name ∧
  (ChatAgents.getChatParticipantNameFromId id ≠ id
     ↔ ∃ rest, id = ChatAgents.CHAT_PARTICIPANT_ID_PREFIX +:+ rest) ∧
  (ChatAgents.getChatParticipantIdFromName (ChatAgents.getChatParticipantNameFromId id) = id
     ↔ ∃ rest, id = ChatAgents.CHAT_PARTICIPANT_ID_PREFIX +:+ rest).
Proof.
  unfold ChatAgents.getChatParticipantNameFromId, ChatAgents.getChatParticipantIdFromName,
    ChatAgents.CHAT_PARTICIPANT_ID_PREFIX.
  split; [by rewrite stripPrefix_app|].
  destruct (ChatAgents.stripPrefix "ollama.code." id) as [rest|] eqn:Hstrip; simpl.
  - apply stripPrefix_Some in Hstrip as ->. split.
    + split; [eauto|]. intros _ H.
      exact (append_longer "o"%char "llama.code." rest (eq_sym H)).
    + split; [eauto|done].
  - assert (¬ ∃ rest, id = "ollama.code." +:+ rest) as Hno.
    { intros [rest ->]. by rewrite stripPrefix_app in Hstrip. }
    split; [split; [done|tauto]|].
    split; [eauto|tauto].
Qed.

Lemma calls_created t cs : ∀ m,
  StubToken._stubToken m = Some t →
  StubToken.calls cs m = (replicate (length cs) t, m).
Proof.
  induction cs as [|[now force] cs IH]; intros m Hm; [done|].
  simpl. unfold StubToken.getCopilotToken. rewrite Hm. by rewrite (IH m Hm).
Qed.

(** X16. The stub token is made once, at the first call: every later
    call, whatever the clock and whether or not a refresh is forced, returns
    that same token, whose expiry stays one year after the first call, and
    exactly one creation is logged.  A manager that is used for longer than
    a year therefore hands out a token whose [expires_at] has passed. *)
Theorem stub_token_never_renewed (first : Z) (force : option bool)
    (later : list (Z * option bool)) :
  let '(tokens, m) := StubToken.calls ((first, force) :: later) StubToken.construct in
  tokens = replicate (S (length later)) (StubToken._createStubToken first) ∧
  Forall (λ t, StubToken.expires_at t = first + 31536000) tokens ∧
  length (StubToken.logged m) = 1%nat.
Proof.
  simpl. rewrite (calls_created (StubToken._createStubToken first)) by done.
  split; [done|]. split; [|done].
  apply Forall_cons_2; [simpl; lia|]. apply Forall_replicate. simpl. lia.
Qed.

Lemma authChange_registered key config c :
  Byok._byokProvidersRegistered c = true → Byok._authChange key config c = c.
Proof. intros H. unfold Byok._authChange. by rewrite H. Qed.

Lemma authChanges_registered key configs : ∀ c,
  Byok._byokProvidersRegistered c = true → Byok.authChanges key configs c = c.
Proof.
  induction configs as [|config configs IH]; intros c Hc; [done|].
  unfold Byok.authChanges. simpl. rewrite authChange_registered by done. by apply IH.
Qed.

(** X17. The Ollama provider is registered exactly once, when the
    contribution is built, at the endpoint configured at that moment
    (http://localhost:11434 when the setting is absent or empty).  No
    authentication change afterwards registers anything or replaces the
    provider, whatever the setting has become by then. *)
Theorem provider_registered_once (key : string) (config : option string)
    (configs : list (option string)) :
  let endpoint := match config with
                  | Some url => if bool_decide (url = "") then "http://localhost:11434" else url
                  | None => "http://localhost:11434"
                  end in
  let c := Byok.authChanges key configs (Byok.construct key config) in
  Byok._store c = [(key, endpoint)] ∧
  Byok._providers c = [(key, endpoint)] ∧
  Byok.logged c = ["Ollama Code: Registered Ollama provider at " +:+ endpoint].
Proof.
  simpl. rewrite authChanges_registered by done. done.
Qed.

(** ** The setup wizard (OllamaCommands.runSetupWizard and what it calls) *)
Module SetupWizard.

(** What the wizard does that can be seen from outside, in order. *)
Inductive Ui :=
| Requested (url : string)
| Executed (command : string)
| Waited (ms : Z)
| Logged (message : string)
| ErrorPrompt (message : string)
| Prompt (message : string)
| InputBox (value : string)
| Information (message : string)
| Error (message : string)
| Opened (url : string)
| Progress (title : string) (reports : list Streams.Report)
| ConfigSet (value : string).

Inductive Result := Returned | Rejected | Waiting.

(** What the host answers, in the order the wizard asks. *)
Record Host := Host_mk {
  version1 : option bool;        (* /api/version: [response.ok], [None] when fetch rejects *)
  versionCmd : bool;             (* whether [ollama --version] succeeds *)
  version2 : option bool;        (* /api/version, second try *)
  downloadAnswer : option string;
  tags : option (list string);   (* the names of [data.models]; [None] when fetch or json() rejects *)
  pullAnswer : option string;
  pullResponse : string + bool * bool;
  pullStream : list (Streams.Read Streams.PullLine);
  endpointAnswer : option string;
  inputBox : option string;
  setConfigOk : bool;
  testStart : Z;
  testResponse : string + bool * Z;  (* [error.message], or [response.ok] and [response.status] *)
  testEnd : Z
}.

Section Wizard.

Variable percentOf : Z → Z → Z.
Variable h : Host.

Definition checkOllamaInstalled (ollamaEndpoint : string) : list Ui * bool :=
  let version := Requested (ollamaEndpoint +:+ "/api/version") in
  match version1 h with
  | Some ok => ([version], ok)
  | None =>
      if versionCmd h then
        ([version; Executed "ollama --version"; Executed "ollama serve"; Waited 2000; version],
         default false (version2 h))
      else ([version; Executed "ollama --version"], false)
  end.

Definition getAvailableModels (ollamaEndpoint : string) : list Ui * list string :=
  let request := Requested (ollamaEndpoint +:+ "/api/tags") in
  match tags h with
  | Some models => ([request], models)
  | None => ([request; Logged "Failed to get Ollama models"], [])
  end.

Definition testConnection (ollamaEndpoint : string) : list Ui * (Z + string) :=
  ([Requested (ollamaEndpoint +:+ "/api/tags")],
   match testResponse h with
   | inr (ok, status) =>
       if ok then inl (testEnd h - testStart h) else inr ("HTTP " +:+ pretty status)
   | inl message => inr message
   end).

Definition setupComplete : string :=
  "🎉 Setup Complete! Ollama Code is ready to use. Press Ctrl+Alt+I to open the chat panel.".

(** Steps 4 and 5. *)
Definition testStep (ollamaEndpoint : string) : list Ui * string * Result :=
  let '(requests, testResult) := testConnection ollamaEndpoint in
  match testResult with
  | inl latency =>
      (requests ++
         [Information ("✅ Step 4: Connection test successful! (" +:+ pretty latency +:+ "ms)");
          Information setupComplete],
       ollamaEndpoint, Returned)
  | inr error =>
      (requests ++ [Error ("❌ Step 4: Connection test failed: " +:+ error)],
       ollamaEndpoint, Returned)
  end.

(** Step 3. *)
Definition endpointStep (ollamaEndpoint : string) : list Ui * string * Result :=
  let ask := Prompt ("Current endpoint: " +:+ ollamaEndpoint +:+ ". Change it?") in
  let continue (ui : list Ui) (endpoint : string) :=
    let '(ui', endpoint', result) := testStep endpoint in (ui ++ ui', endpoint', result) in
  if bool_decide (endpointAnswer h = Some "Change") then
    match inputBox h with
    | Some newEndpoint =>
        if bool_decide (newEndpoint ≠ "") then
          if setConfigOk h then
            continue [ask; InputBox ollamaEndpoint; ConfigSet newEndpoint] newEndpoint
          else ([ask; InputBox ollamaEndpoint], ollamaEndpoint, Rejected)
        else continue [ask; InputBox ollamaEndpoint] ollamaEndpoint
    | None => continue [ask; InputBox ollamaEndpoint] ollamaEndpoint
    end
  else continue [ask] ollamaEndpoint.

(** Whether the pull of step 2 is still reading when the stream stops. *)
Definition pullPending : bool :=
  match pullResponse h with
  | inr (_, true) =>
      match (Streams.pullLoop percentOf (map (λ r, (false, r)) (pullStream h)) (0, [])).2 with
      | Streams.Pending => true
      | _ => false
      end
  | _ => false
  end.

(** Step 2. *)
Definition modelStep (ollamaEndpoint : string) : list Ui * string * Result :=
  let continue (ui : list Ui) :=
    let '(ui', endpoint', result) := endpointStep ollamaEndpoint in (ui ++ ui', endpoint', result) in
  let '(requests, models) := getAvailableModels ollamaEndpoint in
  if bool_decide (models = []) then
    let ask := Prompt "No models found. Would you like to pull the recommended model (qwen2.5-coder:7b)?" in
    if bool_decide (pullAnswer h = Some "Yes, Pull Model") then
      let '(reports, shown) :=
        Streams.pullModelWithProgress percentOf "qwen2.5-coder:7b" (pullResponse h)
          (map (λ r, (false, r)) (pullStream h)) in
      let pull :=
        [Requested (ollamaEndpoint +:+ "/api/pull"); Progress "Pulling qwen2.5-coder:7b..." reports] ++
        match shown with
        | Some (inl message) => [Information message]
        | Some (inr message) => [Error message]
        | None => []
        end in
      if pullPending then (requests ++ ask :: pull, ollamaEndpoint, Waiting)
      else continue (requests ++ ask :: pull)
    else continue (requests ++ [ask])
  else
    continue (requests ++
                [Information ("✅ Step 2: Found " +:+ pretty (length models) +:+ " models!")]).

Definition runSetupWizard (ollamaEndpoint : string) : list Ui * string * Result :=
  let '(checks, ollamaInstalled) := checkOllamaInstalled ollamaEndpoint in
  if negb ollamaInstalled then
    (checks ++
       ErrorPrompt "Ollama is not installed or not running. Please install Ollama first." ::
       (if bool_decide (downloadAnswer h = Some "Download Ollama")
        then [Opened "https://ollama.ai/download"] else []),
     ollamaEndpoint, Returned)
  else
    let '(ui, endpoint', result) := modelStep ollamaEndpoint in
    (checks ++ Information "✅ Step 1: Ollama is installed and running!" :: ui, endpoint', result).

End Wizard.

End SetupWizard.

(** The addresses requested, in order. *)
Definition requestsOf (ui : list SetupWizard.Ui) : list string :=
  omap (λ u, match u with SetupWizard.Requested url => Some url | _ => None end) ui.

(** Whether the connection test of step 4 succeeds. *)
Definition tested (h : SetupWizard.Host) : bool :=
  match SetupWizard.testResponse h with
  | inr (ok, _) => ok
  | inl _ => false
  end.

(** The endpoint that the user enters in step 3, if any. *)
Definition entered (h : SetupWizard.Host) : option string :=
  if bool_decide (SetupWizard.endpointAnswer h = Some "Change") then
    match SetupWizard.inputBox h with
    | Some newEndpoint => if bool_decide (newEndpoint ≠ "") then Some newEndpoint else None
    | None => None
    end
  else None.

(** Whether step 2 pulls the recommended model. *)
Definition pulls (h : SetupWizard.Host) : bool :=
  bool_decide (default [] (SetupWizard.tags h) = []) &&
  bool_decide (SetupWizard.pullAnswer h = Some "Yes, Pull Model").

(** What a step of the wizard guarantees about the rest of the run. *)
Definition completes (condition : Prop) (endpoint : string)
    (run : list SetupWizard.Ui * string * SetupWizard.Result) : Prop :=
  let '(ui, endpoint', result) := run in
  (SetupWizard.Information SetupWizard.setupComplete ∈ ui ↔ condition) ∧
  (condition →
     result = SetupWizard.Returned ∧
     last ui = Some (SetupWizard.Information SetupWizard.setupComplete) ∧
     endpoint' = endpoint ∧
     last (requestsOf ui) = Some (endpoint +:+ "/api/tags")).

Lemma completes_prefix condition endpoint ui0 ui endpoint' result :
  SetupWizard.Information SetupWizard.setupComplete ∉ ui0 →
  completes condition endpoint (ui, endpoint', result) →
  completes condition endpoint (ui0 ++ ui, endpoint', result).
Proof.
  intros Hnot [Hiff Hthen]. split.
  - rewrite elem_of_app. tauto.
  - intros Hc. destruct (Hthen Hc) as (-> & Hlast & -> & Hreq). repeat split.
    + destruct ui as [|u ui _] using rev_ind; [done|].
      by rewrite app_assoc, last_snoc in *.
    + unfold requestsOf in *. rewrite omap_app.
      destruct (omap _ ui) as [|u us _] using rev_ind; [done|].
      by rewrite app_assoc, last_snoc in *.
Qed.

Lemma completes_never (condition : Prop) endpoint ui endpoint' result :
  ¬ condition →
  SetupWizard.Information SetupWizard.setupComplete ∉ ui →
  completes condition endpoint (ui, endpoint', result).
Proof. intros ??. split; tauto. Qed.

Lemma completes_iff (c1 c2 : Prop) endpoint run :
  (c1 ↔ c2) → completes c1 endpoint run → completes c2 endpoint run.
Proof. destruct run as [[ui e] r]. unfold completes. intros ? [??]. split; tauto. Qed.

Ltac not_shown :=
  unfold SetupWizard.setupComplete; cbn [fst snd];
  repeat first [rewrite elem_of_app | rewrite elem_of_cons | rewrite elem_of_nil];
  rewrite ?append_cons;
  intros ?; destruct_or?; try done; simplify_eq.

Lemma testStep_completes h endpoint :
  completes (tested h = true) endpoint (SetupWizard.testStep h endpoint).
Proof.
  unfold SetupWizard.testStep, SetupWizard.testConnection, tested.
  destruct (SetupWizard.testResponse h) as [message|[[] status]].
  - apply completes_never; [done|not_shown].
  - split; [|done]. split; [done|]. intros _.
    rewrite elem_of_app, !elem_of_cons. auto.
  - apply completes_never; [done|not_shown].
Qed.

Lemma endpointStep_completes h endpoint :
  completes ((is_Some (entered h) → SetupWizard.setConfigOk h = true) ∧ tested h = true)
    (default endpoint (entered h)) (SetupWizard.endpointStep h endpoint).
Proof.
  unfold SetupWizard.endpointStep, entered.
  case_bool_decide as Hanswer.
  - destruct (SetupWizard.inputBox h) as [newEndpoint|].
    + case_bool_decide as Hnew.
      * destruct (SetupWizard.setConfigOk h) eqn:Hok.
        -- pose proof (testStep_completes h newEndpoint) as Htest.
           destruct (SetupWizard.testStep h newEndpoint) as [[ui e] r].
           apply completes_prefix; [not_shown|].
           eapply completes_iff; [|exact Htest]. split; [by split|tauto].
        -- apply completes_never; [|not_shown].
           intros [Hc _]. by specialize (Hc (mk_is_Some _ _ eq_refl)).
      * pose proof (testStep_completes h endpoint) as Htest.
        destruct (SetupWizard.testStep h endpoint) as [[ui e] r].
        apply completes_prefix; [not_shown|].
        eapply completes_iff; [|exact Htest]. split; [|tauto].
        intros ?. split; [|done]. by intros [? ?].
    + pose proof (testStep_completes h endpoint) as Htest.
      destruct (SetupWizard.testStep h endpoint) as [[ui e] r].
      apply completes_prefix; [not_shown|].
      eapply completes_iff; [|exact Htest]. split; [|tauto].
      intros ?. split; [|done]. by intros [? ?].
  - pose proof (testStep_completes h endpoint) as Htest.
    destruct (SetupWizard.testStep h endpoint) as [[ui e] r].
    apply completes_prefix; [not_shown|].
    eapply completes_iff; [|exact Htest]. split; [|tauto].
    intros ?. split; [|done]. by intros [? ?].
Qed.

Lemma pull_message percentOf modelName response stream reports message :
  Streams.pullModelWithProgress percentOf modelName response stream
    = (reports, Some (inl message)) →
  message = "Successfully pulled " +:+ modelName.
Proof.
  unfold Streams.pullModelWithProgress.
  destruct response as [?|[? []]]; cbn zeta.
  - case_bool_decide; intros; simplify_eq.
  - destruct (Streams.pullLoop _ _ _) as [[? ?] []]; try case_bool_decide;
      intros; by simplify_eq.
  - intros; simplify_eq.
Qed.

Lemma getAvailableModels_models h endpoint :
  (SetupWizard.getAvailableModels h endpoint).2 = default [] (SetupWizard.tags h) ∧
  SetupWizard.Information SetupWizard.setupComplete
    ∉ (SetupWizard.getAvailableModels h endpoint).1.
Proof.
  unfold SetupWizard.getAvailableModels.
  destruct (SetupWizard.tags h); (split; [done|not_shown]).
Qed.

Lemma modelStep_completes percentOf h endpoint :
  completes
    ((pulls h = true → SetupWizard.pullPending percentOf h = false) ∧
     (is_Some (entered h) → SetupWizard.setConfigOk h = true) ∧ tested h = true)
    (default endpoint (entered h)) (SetupWizard.modelStep percentOf h endpoint).
Proof.
  pose proof (endpointStep_completes h endpoint) as Hnext.
  destruct (getAvailableModels_models h endpoint) as [Hmodels Hrequests].
  unfold SetupWizard.modelStep, pulls.
  destruct (SetupWizard.endpointStep h endpoint) as [[ui e] r].
  destruct (SetupWizard.getAvailableModels h endpoint) as [requests models].
  cbn [fst snd] in Hmodels, Hrequests. rewrite <-Hmodels.
  destruct (decide (models = [])) as [Hnone|Hsome].
  - rewrite !(bool_decide_eq_true_2 (models = [])) by done. cbn [andb].
    destruct (decide (SetupWizard.pullAnswer h = Some "Yes, Pull Model")) as [Hyes|Hno].
    + rewrite !(bool_decide_eq_true_2 (SetupWizard.pullAnswer h = _)) by done.
      destruct (Streams.pullModelWithProgress _ _ _ _) as [reports shown] eqn:Hpull.
      assert (SetupWizard.Information SetupWizard.setupComplete ∉
                requests ++
                SetupWizard.Prompt "No models found. Would you like to pull the recommended model (qwen2.5-coder:7b)?"
                :: [SetupWizard.Requested (endpoint +:+ "/api/pull");
                    SetupWizard.Progress "Pulling qwen2.5-coder:7b..." reports] ++
                   match shown with
                   | Some (inl message) => [SetupWizard.Information message]
                   | Some (inr message) => [SetupWizard.Error message]
                   | None => []
                   end) as Hnot.
      { destruct shown as [[message|message]|]; not_shown.
        apply pull_message in Hpull. by rewrite append_cons in Hpull. }
      destruct (SetupWizard.pullPending percentOf h).
      * apply completes_never; [|done]. intros [Hc _]. by specialize (Hc eq_refl).
      * apply completes_prefix; [done|].
        eapply completes_iff; [|exact Hnext]. tauto.
    + rewrite !(bool_decide_eq_false_2 (SetupWizard.pullAnswer h = _)) by done.
      apply completes_prefix; [not_shown|].
      eapply completes_iff; [|exact Hnext]. split; [|tauto]. intros ?. by split.
  - rewrite !(bool_decide_eq_false_2 (models = [])) by done. cbn [andb].
    apply completes_prefix; [not_shown|].
    eapply completes_iff; [|exact Hnext]. split; [|tauto]. intros ?. by split.
Qed.

(** X18. The setup wizard ends with "Setup Complete! Ollama Code is
    ready to use" exactly when the installation check passes, a pull that
    was started has come to an end, a new endpoint (if one was entered) could
    be saved, and the connection test answers with an ok status.  Whether
    any model is installed plays no part: with no model and the pull
    skipped, or failed, the wizard still reports that the extension is
    ready.  When it does, that message is the last thing shown, the endpoint
    kept is the one entered in step 3 (else the one before), and the last
    request, the connection test, went to that endpoint. *)
Theorem setup_complete (percentOf : Z → Z → Z) (h : SetupWizard.Host) (endpoint : string) :
  let '(ui, endpoint', result) := SetupWizard.runSetupWizard percentOf h endpoint in
  let ready :=
    (SetupWizard.checkOllamaInstalled h endpoint).2 = true ∧
    (pulls h = true → SetupWizard.pullPending percentOf h = false) ∧
    (is_Some (entered h) → SetupWizard.setConfigOk h = true) ∧
    tested h = true in
  (SetupWizard.Information SetupWizard.setupComplete ∈ ui ↔ ready) ∧
  (ready →
     result = SetupWizard.Returned ∧
     last ui = Some (SetupWizard.Information SetupWizard.setupComplete) ∧
     endpoint' = default endpoint (entered h) ∧
     last (requestsOf ui) = Some (default endpoint (entered h) +:+ "/api/tags")).
Proof.
  pose proof (modelStep_completes percentOf h endpoint) as Hnext.
  unfold SetupWizard.runSetupWizard.
  destruct (SetupWizard.modelStep percentOf h endpoint) as [[ui e] r].
  assert (SetupWizard.Information SetupWizard.setupComplete
            ∉ (SetupWizard.checkOllamaInstalled h endpoint).1) as Hchecks.
  { unfold SetupWizard.checkOllamaInstalled.
    destruct (SetupWizard.version1 h); [not_shown|].
    destruct (SetupWizard.versionCmd h); not_shown. }
  destruct (SetupWizard.checkOllamaInstalled h endpoint) as [checks []];
    cbn [fst snd negb] in *.
  - apply (completes_prefix _ _
             (checks ++ [SetupWizard.Information "✅ Step 1: Ollama is installed and running!"]))
      in Hnext; [|by not_shown; apply Hchecks].
    rewrite <-app_assoc in Hnext. cbn [app] in Hnext.
    eapply (completes_iff _ _ _ (_, _, _)); [|exact Hnext]. tauto.
  - apply (completes_never _ _ _ _ SetupWizard.Returned); [by intros [? _]|].
    case_bool_decide; not_shown; by apply Hchecks.
Qed.

(** No model is installed, the pull is declined and the endpoint is kept. *)
Definition noModels : SetupWizard.Host :=
  SetupWizard.Host_mk (Some true) false None None (Some []) (Some "Skip")
    (inl "") [] (Some "Keep Current") None false 5000 (inr (true, 200)) 5012.

Lemma setup_complete_witness :
  SetupWizard.Information SetupWizard.setupComplete
    ∈ (SetupWizard.runSetupWizard (λ _ _, 0) noModels "http://localhost:11434").1.1.
Proof.
  pose proof (setup_complete (λ _ _, 0) noModels "http://localhost:11434") as H.
  destruct (SetupWizard.runSetupWizard _ _ _) as [[ui e] r].
  apply H. split; [reflexivity|]. split; [intros Hp; discriminate Hp|].
  split; [|reflexivity]. intros [x Hx]. discriminate Hx.
Defined.
